(** * Quaver/Z: session core, packet broadcast and Redis mirroring

    A shallow embedding of
      - [sessions/user.go]        (the user session object and its Redis keys),
      - the packet sender of package [sessions] (SendPacketToConnection,
        SendPacketToUser, SendPacketToUsers),
      - [multiplayer/redis.go]    (mirroring of a game and its players into Redis),
    followed by the properties of that code.

    Go values are modelled as follows.  An [int]/[int64] is a [Z] (the code
    only stores, compares and prints them, it performs no arithmetic, so no
    wrap-around can be observed); a [string] and a [[]byte] are a [string];
    a Go [map] is a [gmap]; a slice is a [list]; an [error] is its message.
    Every call that leaves the process (mutex, database, Redis, connection,
    log) is appended to a trace kept in the world, so that the order and the
    number of such calls can be stated. *)

From Stdlib Require Import Ascii.
From stdpp Require Import gmap strings list fin_maps pretty.

Local Open Scope Z_scope.

(** ** Go builtins and standard library *)

(** The message of a Go [error]. *)
Definition error := string.

(** A [[]byte]. *)
Definition Bytes := string.

(** A [net.Conn], named by its handle. *)
Definition net_Conn := Z.

(** A [*sync.Mutex], named by its address. *)
Definition Mutex := Z.

(** A [float64], by its IEEE-754 bits ([math.Float64bits]): one sign bit, an
    11-bit biased exponent and a 52-bit mantissa. *)
Definition float64 := Z.

(** The line feed that ends the formats of [log.Printf] in redis.go. *)
Definition LF : string := String (Ascii.ascii_of_nat 10) EmptyString.

Module strconv.
(** [strconv.Itoa]: decimal text, with a leading minus for negatives. *)
Definition Itoa (i : Z) : string := pretty i.

(** [strconv.FormatInt(i, 10)]. *)
Definition FormatInt10 (i : Z) : string := pretty i.

(** The sign bit, the biased exponent and the mantissa field of a float. *)
Definition sign_bit (bits : float64) : bool := Z.testbit bits 63.
Definition exp_field (bits : float64) : Z := Z.land (Z.shiftr bits 52) 2047.
Definition mant_field (bits : float64) : Z := Z.land bits (2 ^ 52 - 1).

(** The sign of [D * 10^k - W * 2^E], by cross multiplication. *)
Definition cmp_dec_bin (D k W E : Z) : comparison :=
  (D * 10 ^ Z.max k 0 * 2 ^ Z.max (- E) 0
   ?= W * 2 ^ Z.max E 0 * 10 ^ Z.max (- k) 0).

(** The decimal exponent [p] with [10^p <= m * 2^e2 < 10^(p+1)], searched
    upwards from an estimate that lies below it. *)
Fixpoint magnitude_from (fuel : nat) (m e2 p : Z) : Z :=
  match fuel with
  | O => p
  | S fuel' =>
      match cmp_dec_bin 1 (p + 1) m e2 with
      | Gt => p
      | _ => magnitude_from fuel' m e2 (p + 1)
      end
  end.

Definition magnitude (m e2 : Z) : Z :=
  magnitude_from 6 m e2 ((Z.log2 m + e2) * 30103 / 100000 - 2).

(** Whether [D * 10^k] rounds to the float: it lies between the halfway
    points [L * 2^E] and [U * 2^E] to its neighbours, the ends counting
    when [incl] (an even mantissa). *)
Definition rounds_back (incl : bool) (L U E D k : Z) : bool :=
  match cmp_dec_bin D k L E with
  | Gt => true | Eq => incl | Lt => false
  end
  && match cmp_dec_bin D k U E with
     | Lt => true | Eq => incl | Gt => false
     end.

(** The shortest decimal [D * 10^k] that rounds to [m * 2^e2], and the
    closest one when two of that length do: tried with 1, 2, ... 17
    digits, and the exact expansion after that.  [boundary] says that the
    float below is only half as far as the float above. *)
Fixpoint shortest_from (fuel : nat) (m e2 : Z) (boundary : bool) (p n : Z)
    : Z * Z :=
  match fuel with
  | O => if bool_decide (0 ≤ e2) then (m * 2 ^ e2, 0) else (m * 5 ^ (- e2), e2)
  | S fuel' =>
      let k := p - n + 1 in
      let E := e2 - 2 in
      let L := if boundary then 4 * m - 1 else 4 * m - 2 in
      let U := 4 * m + 2 in
      let incl := Z.even m in
      let lo := (m * 2 ^ Z.max e2 0 * 10 ^ Z.max (- k) 0)
                / (2 ^ Z.max (- e2) 0 * 10 ^ Z.max k 0) in
      let oklo := rounds_back incl L U E lo k in
      let okhi := rounds_back incl L U E (lo + 1) k in
      if oklo && okhi then
        match cmp_dec_bin (2 * lo + 1) k (8 * m) E with
        | Gt => (lo, k)
        | Lt => (lo + 1, k)
        | Eq => (if Z.even lo then lo else lo + 1, k)
        end
      else if oklo then (lo, k)
      else if okhi then (lo + 1, k)
      else shortest_from fuel' m e2 boundary p (n + 1)
  end.

Definition shortest (m e2 : Z) (boundary : bool) : Z * Z :=
  shortest_from 17 m e2 boundary (magnitude m e2) 1.

(** Drops the zeros that end a run of digits. *)
Fixpoint strip_zeros (ds : list ascii) : list ascii :=
  match ds with
  | [] => []
  | c :: ds' =>
      match strip_zeros ds' with
      | [] => if bool_decide (c = "0"%char) then [] else [c]
      | r => c :: r
      end
  end.

(** [%f] of the digits [ds] with the decimal point at [dp]: the sign, the
    integer digits padded with zeros (a single 0 when there are none), and
    the fraction digits after a point when there are any. *)
Definition fmtF (neg : bool) (ds : list ascii) (dp : Z) : list ascii :=
  let nd := Z.of_nat (length ds) in
  let m := Z.min nd dp in
  (if neg then ["-"%char] else [])
  ++ (if bool_decide (0 < dp)
      then take (Z.to_nat m) ds ++ replicate (Z.to_nat (dp - m)) "0"%char
      else ["0"%char])
  ++ (let prec := Z.max (nd - dp) 0 in
      if bool_decide (0 < prec)
      then "."%char
           :: ((λ i, let j := dp + i in
                     if bool_decide (0 ≤ j < nd)
                     then default "0"%char (ds !! Z.to_nat j)
                     else "0"%char) <$> seqZ 0 prec)
      else []).

(** Whether the float is a number: neither NaN nor an infinity. *)
Definition is_finite (bits : float64) : bool :=
  negb (bool_decide (exp_field bits = 2047)).

(** [strconv.FormatFloat(x, 'f', -1, 64)]: NaN and the infinities by name,
    and otherwise the fewest digits that still identify the float, laid
    out without exponent. *)
Definition FormatFloat_f (bits : float64) : string :=
  let neg := sign_bit bits in
  let exp := exp_field bits in
  let mant := mant_field bits in
  if bool_decide (exp = 2047) then
    if bool_decide (mant ≠ 0) then "NaN"
    else if neg then "-Inf" else "+Inf"
  else
    let m := if bool_decide (exp = 0) then mant else mant + 2 ^ 52 in
    let e2 := (if bool_decide (exp = 0) then 1 else exp) - 1075 in
    if bool_decide (m = 0) then String.string_of_list_ascii (fmtF neg [] 0)
    else
      let '(D, k) := shortest m e2 (bool_decide (mant = 0 ∧ 1 < exp)) in
      let ds := String.list_ascii_of_string (pretty (Z.to_N D)) in
      String.string_of_list_ascii
        (fmtF neg (strip_zeros ds) (Z.of_nat (length ds) + k)).

Arguments FormatFloat_f : simpl never.
End strconv.

(** [%v] of an [int] in [fmt.Sprintf]. *)
Definition fmt_v_int (i : Z) : string := pretty i.

(** ** Declarations of the repository that the three files only use *)

Module common.
(** [common.Mode], an integer enumeration starting at 1. *)
Definition Mode := Z.
(** [common.Mods], a modifier bitmask. *)
Definition Mods := Z.
(** [common.UserGroups], a group bitmask. *)
Definition UserGroups := Z.
Definition ModeKeys4 : Mode := 1.
End common.

(** What the files rely on without declaring it: the end marker of the mode
    enumeration, the database statistics row and the dynamically typed
    payload of a packet ([interface{}]). *)
Class Decls := {
  ModeEnumMaxValue : common.Mode;
  UserStats : Type;
  Payload : Type;
}.

Module db.
(** The fields of [db.User] that the files read. *)
Record User := {
  Id : Z;
  SteamId : string;
  Username : string;
  UserGroups : common.UserGroups;
  MuteEndTime : Z;
  Country : string;
  AvatarUrl : string;
}.

(** The two Redis commands of the files under study, with the arguments
    the client sends.  [HSet] takes the flat field, value, field, value ...
    slice exactly as the code builds it. *)
Inductive RedisCmd :=
| HSet (key : string) (values : list string)
| Del (keys : list string).
End db.

Module objects.
(** [objects.ClientStatus]; its field [MapId] is [status_MapId] here,
    next to the [MapId] of a game. *)
Record ClientStatus := {
  Status : Z;
  status_MapId : Z;
  MapMd5 : string;
  GameMode : common.Mode;
  Content : string;
  Modifiers : common.Mods;
}.

(** [MultiplayerGamePlayerWins] and [MultiplayerGamePlayerMods]: both Go
    structs name their fields [Id], and the second one [Modifiers]. *)
Record MultiplayerGamePlayerWins := { wins_Id : Z; Wins : Z }.
Record MultiplayerGamePlayerMods := { mods_Id : Z; mods_Modifiers : common.Mods }.

Section game.
Context {D : Decls}.

(** The fields of [objects.MultiplayerGame] that redis.go reads. *)
Record MultiplayerGame := {
  Id : Z;
  Name : string;
  HasPassword : bool;
  MaxPlayers : Z;
  MapMD5 : string;
  MapId : Z;
  MapsetId : Z;
  MapName : string;
  HostId : Z;
  Ruleset : Z;
  IsHostRotation : bool;
  MapGameMode : common.Mode;
  MapDifficultyRating : float64;
  InProgress : bool;
  GlobalModifiers : common.Mods;
  FreeModType : Z;
  IsTournamentMode : bool;
  PlayerWins : list MultiplayerGamePlayerWins;
  PlayerModifiers : list MultiplayerGamePlayerMods;
  PlayersReady : list Z;
  PlayersWithoutMap : list Z;
}.
End game.
End objects.

Module utils.
(** Modelled from the spec: [utils.BoolToInt] is defined outside the files
    embedded here; the record fields built with it are published as
    "bool as 0/1". *)
Definition BoolToInt (b : bool) : Z := if b then 1 else 0.

(** Modelled from the spec: [utils.Includes] is defined outside the files
    embedded here; the has-map flag is "derived as NOT-in a without-map
    set", so it is membership in the slice. *)
Definition Includes (l : list Z) (x : Z) : bool := bool_decide (x ∈ l).

(** Modelled from the spec: [utils.Find] is defined outside the files
    embedded here; per-player sub-state is "keyed by user id", so it yields
    the first element that satisfies the predicate and an error when there
    is none. *)
Fixpoint Find {T : Type} (l : list T) (p : T → bool) : error + T :=
  match l with
  | [] => inl "not found"%string
  | x :: l' => if p x then inr x else Find l' p
  end.
End utils.

(** ** The world outside the process *)

(** One entry per call that leaves the session or game object. *)
Inductive Event :=
| EvLock (m : Mutex)
| EvUnlock (m : Mutex)
| EvGetUserStats (id : Z) (country : string) (mode : common.Mode)
| EvMarshal (r : error + Bytes)
| EvWrite (conn : net_Conn) (frame : Bytes) (r : option error)
| EvRedis (c : db.RedisCmd) (r : option error)
| EvRedisStatus (key : string) (r : option error)
| EvLog (line : string).

(** The Redis hashes, the clock in Unix milliseconds, and the trace. *)
Record World := {
  redis : gmap string (gmap string string);
  now : Z;
  trace : list Event;
}.

(** Effectful code is a state transformer over the world. *)
Definition M (A : Type) : Type := World → A * World.

#[global] Instance M_ret : MRet M := λ A a w, (a, w).
#[global] Instance M_bind : MBind M := λ A B f m w, let '(a, w') := m w in f a w'.

Definition emit (e : Event) : M unit :=
  λ w, (tt, {| redis := redis w; now := now w; trace := trace w ++ [e] |}).

Definition set_redis (r : gmap string (gmap string string)) : M unit :=
  λ w, (tt, {| redis := r; now := now w; trace := trace w |}).

Definition get_redis : M (gmap string (gmap string string)) := λ w, (redis w, w).

Definition history : M (list Event) := λ w, (trace w, w).

(** [u.mutex.Lock()] and [u.mutex.Unlock()]. *)
Definition Lock (m : Mutex) : M unit := emit (EvLock m).
Definition Unlock (m : Mutex) : M unit := emit (EvUnlock m).

(** [time.Now().UnixMilli()]. *)
Definition time_Now_UnixMilli : M Z := λ w, (now w, w).

(** [log.Println] and [log.Printf], by the text they print. *)
Definition log_Println (line : string) : M unit := emit (EvLog line).
Definition log_Printf (line : string) : M unit := emit (EvLog line).

(** Whether an event is a call to a service outside the process (database,
    Redis, network); the mutex and the log are local. *)
Definition external (e : Event) : bool :=
  match e with
  | EvGetUserStats _ _ _ | EvMarshal _ | EvWrite _ _ _
  | EvRedis _ _ | EvRedisStatus _ _ => true
  | EvLock _ | EvUnlock _ | EvLog _ => false
  end.

(** The behaviour of the services, as the process sees it.  The outcome of a
    network, serialization or Redis call may depend on everything that has
    happened so far. *)
Class Services {D : Decls} := {
  (** the row [db.GetUserStats] finds, or its error *)
  userstats_row : Z → string → common.Mode → error + UserStats;
  (** the outcome of [json.Marshal] on a payload *)
  marshal_result : Payload → list Event → error + Bytes;
  (** the outcome of [wsutil.WriteServerText] on a connection *)
  write_result : net_Conn → Bytes → list Event → option error;
  (** the fault, if any, that makes a Redis command fail *)
  redis_fault : db.RedisCmd → list Event → option error;
}.

Module redis_model.
(** Pairs the flat argument slice of HSET; an odd slice has no pairing. *)
Fixpoint pair_up (l : list string) : option (list (string * string)) :=
  match l with
  | [] => Some []
  | f :: v :: l' => (λ ps, (f, v) :: ps) <$> pair_up l'
  | [_] => None
  end.

(** HSET sets the fields from left to right in the hash under the key,
    creating the hash when the key is absent. *)
Definition hset (key : string) (ps : list (string * string))
    (r : gmap string (gmap string string)) : gmap string (gmap string string) :=
  <[key := foldl (λ h fv, <[fv.1 := fv.2]> h) (default ∅ (r !! key)) ps]> r.

(** DEL removes each key with its whole value. *)
Definition del (keys : list string)
    (r : gmap string (gmap string string)) : gmap string (gmap string string) :=
  foldl (λ r k, delete k r) r keys.

(** The server-side outcome of a command on the store. *)
Definition apply (c : db.RedisCmd) (r : gmap string (gmap string string))
    : error + gmap string (gmap string string) :=
  match c with
  | db.HSet key values =>
      match pair_up values with
      | Some ps => inr (hset key ps r)
      | None => inl "ERR wrong number of arguments for 'hset' command"%string
      end
  | db.Del keys => inr (del keys r)
  end.
End redis_model.

Section calls.
Context {D : Decls} {Sv : Services}.

(** [db.GetUserStats(id, country, mode)]. *)
Definition db_GetUserStats (id : Z) (country : string) (mode : common.Mode)
    : M (error + UserStats) :=
  emit (EvGetUserStats id country mode);;
  mret (userstats_row id country mode).

(** [json.Marshal(data)]. *)
Definition json_Marshal (data : Payload) : M (error + Bytes) :=
  h ← history;
  let r := marshal_result data h in
  emit (EvMarshal r);;
  mret r.

(** [wsutil.WriteServerText(conn, j)]. *)
Definition wsutil_WriteServerText (conn : net_Conn) (j : Bytes) : M (option error) :=
  h ← history;
  let r := write_result conn j h in
  emit (EvWrite conn j r);;
  mret r.

(** [db.Redis.<cmd>(db.RedisCtx, ...).Result()], keeping the error only:
    a faulty call leaves the store as it is. *)
Definition db_Redis (c : db.RedisCmd) : M (option error) :=
  h ← history;
  r ← get_redis;
  match redis_fault c h with
  | Some e => emit (EvRedis c (Some e));; mret (Some e)
  | None =>
      match redis_model.apply c r with
      | inl e => emit (EvRedis c (Some e));; mret (Some e)
      | inr r' => set_redis r';; emit (EvRedis c None);; mret None
      end
  end.
End calls.

(** ** Package [sessions] *)

Module sessions.
Section data.
Context {D : Decls}.

(** The session of a connected user ([user.go], struct [User]).  The
    methods have pointer receivers: a method that writes a field is given
    here the session before the call and returns the session after it. *)
Record User := {
  Conn : net_Conn;
  token : string;
  Info : db.User;
  mutex : Mutex;
  stats : gmap common.Mode UserStats;
  lastPingTimestamp : Z;
  lastPongTimestamp : Z;
  lastDetectedProcesses : list string;
  status : objects.ClientStatus;
}.

(** [u.stats[mode] = s]. *)
Definition store_stats (u : User) (mode : common.Mode) (s : UserStats) : User :=
  {| Conn := Conn u; token := token u; Info := Info u; mutex := mutex u;
     stats := <[mode := s]> (stats u);
     lastPingTimestamp := lastPingTimestamp u;
     lastPongTimestamp := lastPongTimestamp u;
     lastDetectedProcesses := lastDetectedProcesses u;
     status := status u |}.

(** [u.status = st]. *)
Definition store_status (u : User) (st : objects.ClientStatus) : User :=
  {| Conn := Conn u; token := token u; Info := Info u; mutex := mutex u;
     stats := stats u;
     lastPingTimestamp := lastPingTimestamp u;
     lastPongTimestamp := lastPongTimestamp u;
     lastDetectedProcesses := lastDetectedProcesses u;
     status := st |}.

(** [getRedisSessionKey]: the Redis key of the user's session. *)
Definition getRedisSessionKey (u : User) : string :=
  "quaver:server:session:" +:+ token u.

(** [getRedisClientStatusKey]: the Redis key of the user's client status. *)
Definition getRedisClientStatusKey (u : User) : string :=
  "quaver:server:user_status:" +:+ fmt_v_int (db.Id (Info u)).
End data.

(** The two functions of the package that [user.go] and [redis.go] call
    and that are defined in files not embedded here. *)
Class Registry {D : Decls} := {
  (** Modelled from the spec: [GetUserById] is defined outside the files
      embedded here; the session registry offers
      "getById(id) -> session|absent". *)
  GetUserById : Z → option User;
  (** Modelled from the spec: [addUserClientStatusToRedis] is defined
      outside the files embedded here; it "propagates the new status to
      ExternalCache" and may fail.  Only its outcome is known here. *)
  status_write_result : User → list Event → option error;
}.

Section code.
Context {D : Decls} {Sv : Services} {Rg : Registry}.

(** Modelled from the spec: [addUserClientStatusToRedis] is defined
    outside the files embedded here; it writes the session's
    status-derived record under the client-status key.  The layout of that
    record is unknown, so the write is kept as an event on that key and the
    record itself is not represented in [redis]. *)
Definition addUserClientStatusToRedis (u : User) : M (option error) :=
  h ← history;
  let r := status_write_result u h in
  emit (EvRedisStatus (getRedisClientStatusKey u) r);;
  mret r.

(** [GetToken]. *)
Definition GetToken (u : User) : string := token u.

(** [GetStats]. *)
Definition GetStats (u : User) : M (gmap common.Mode UserStats) :=
  Lock (mutex u);;
  let r := stats u in
  Unlock (mutex u);;
  mret r.

(** The loop of [SetStats], from mode [i] with [n] iterations to go:
    [for ; i < int(common.ModeEnumMaxValue); i++]. *)
Fixpoint SetStats_loop (n : nat) (i : Z) (u : User) : M (option error * User) :=
  match n with
  | O => mret (None, u)
  | S n' =>
      let mode : common.Mode := i in
      r ← db_GetUserStats (db.Id (Info u)) (db.Country (Info u)) mode;
      match r with
      | inl err => mret (Some err, u)
      | inr s => SetStats_loop n' (i + 1) (store_stats u mode s)
      end
  end.

(** [SetStats]: the loop starts at 1 and runs while [i] is below
    [ModeEnumMaxValue]; the deferred unlock runs on every return. *)
Definition SetStats (u : User) : M (option error * User) :=
  Lock (mutex u);;
  r ← SetStats_loop (Z.to_nat (ModeEnumMaxValue - 1)) 1 u;
  Unlock (mutex u);;
  mret r.

(** [GetClientStatus]. *)
Definition GetClientStatus (u : User) : M objects.ClientStatus :=
  Lock (mutex u);;
  let r := status u in
  Unlock (mutex u);;
  mret r.

(** [SetClientStatus]. *)
Definition SetClientStatus (u : User) (st : objects.ClientStatus) : M User :=
  Lock (mutex u);;
  let u := store_status u st in
  Unlock (mutex u);;
  err ← addUserClientStatusToRedis u;
  match err with
  | Some e => log_Println e;; mret u
  | None => mret u
  end.

(** [IsMuted]: the comparison is evaluated before the deferred unlock. *)
Definition IsMuted (u : User) : M bool :=
  Lock (mutex u);;
  t ← time_Now_UnixMilli;
  let r := bool_decide (db.MuteEndTime (Info u) > t) in
  Unlock (mutex u);;
  mret r.

(** [SendPacketToConnection]. *)
Definition SendPacketToConnection (data : Payload) (conn : net_Conn) : M unit :=
  r ← json_Marshal data;
  match r with
  | inl err => log_Println err
  | inr j =>
      err ← wsutil_WriteServerText conn j;
      match err with
      | Some err => log_Println err
      | None => log_Printf ("SENT - " +:+ j)
      end
  end.

(** [SendPacketToUser]. *)
Definition SendPacketToUser (data : Payload) (user : User) : M unit :=
  SendPacketToConnection data (Conn user).

(** [SendPacketToUsers]: [for _, user := range users]. *)
Fixpoint SendPacketToUsers (data : Payload) (users : list User) : M unit :=
  match users with
  | [] => mret tt
  | user :: users' =>
      SendPacketToUser data user;;
      SendPacketToUsers data users'
  end.
End code.
End sessions.

(** ** Package [multiplayer] *)

Module multiplayer.
Section code.
Context {D : Decls} {Sv : Services} {Rg : sessions.Registry}.

(** The part of [Game] that redis.go reads: the game data. *)
Record Game := { Data : objects.MultiplayerGame }.

(** [getMatchSettingsRedisKey]. *)
Definition getMatchSettingsRedisKey (game : Game) : string :=
  "quaver:server:multiplayer:" +:+ fmt_v_int (objects.Id (Data game)).

(** The [settings] slice of [cacheMatchSettings]. *)
Definition matchSettings (game : Game) : list string :=
  let d := Data game in
  [ "n"; objects.Name d;
    "pw"; strconv.Itoa (utils.BoolToInt (objects.HasPassword d));
    "mp"; strconv.Itoa (objects.MaxPlayers d);
    "md5"; objects.MapMD5 d;
    "mid"; strconv.Itoa (objects.MapId d);
    "msid"; strconv.Itoa (objects.MapsetId d);
    "map"; objects.MapName d;
    "host"; strconv.Itoa (objects.HostId d);
    "r"; strconv.Itoa (objects.Ruleset d);
    "hr"; strconv.Itoa (utils.BoolToInt (objects.IsHostRotation d));
    "gm"; strconv.Itoa (objects.MapGameMode d);
    "d"; strconv.FormatFloat_f (objects.MapDifficultyRating d);
    "inp"; strconv.Itoa (utils.BoolToInt (objects.InProgress d));
    "m"; strconv.FormatInt10 (objects.GlobalModifiers d);
    "fm"; strconv.Itoa (objects.FreeModType d);
    "trn"; strconv.Itoa (utils.BoolToInt (objects.IsTournamentMode d)) ]%string.

(** [cacheMatchSettings]. *)
Definition cacheMatchSettings (game : Game) : M unit :=
  let settings := matchSettings game in
  err ← db_Redis (db.HSet (getMatchSettingsRedisKey game) settings);
  match err with
  | Some e =>
      log_Printf ("Failed to cache match settings in redis - " +:+ e +:+ LF)
  | None => mret tt
  end.

(** [deleteCachedMatchSettings]. *)
Definition deleteCachedMatchSettings (game : Game) : M unit :=
  err ← db_Redis (db.Del [getMatchSettingsRedisKey game]);
  match err with
  | Some e =>
      log_Printf ("Failed to remove match settings in redis - " +:+ e +:+ LF)
  | None => mret tt
  end.

(** [getPlayerRedisKey]. *)
Definition getPlayerRedisKey (game : Game) (id : Z) : string :=
  "quaver:server:multiplayer:" +:+ fmt_v_int (objects.Id (Data game))
    +:+ ":player:" +:+ fmt_v_int id.

(** The [player] slice of [cachePlayer], for a live session [user]. *)
Definition playerRecord (game : Game) (id : Z) (user : sessions.User) : list string :=
  let d := Data game in
  let wins :=
    match utils.Find (objects.PlayerWins d) (λ x, bool_decide (objects.wins_Id x = id)) with
    | inr wins => wins
    | inl _ => {| objects.wins_Id := 0; objects.Wins := 0 |}
    end in
  let mods :=
    match utils.Find (objects.PlayerModifiers d) (λ x, bool_decide (objects.mods_Id x = id)) with
    | inr mods => mods
    | inl _ => {| objects.mods_Id := 0; objects.mods_Modifiers := 0 |}
    end in
  [ "id"; strconv.Itoa (db.Id (sessions.Info user));
    "u"; db.Username (sessions.Info user);
    "sid"; db.SteamId (sessions.Info user);
    "a"; db.AvatarUrl (sessions.Info user);
    "c"; db.Country (sessions.Info user);
    "w"; strconv.Itoa (objects.Wins wins);
    "m"; strconv.Itoa (objects.mods_Modifiers mods);
    "r"; strconv.Itoa (utils.BoolToInt (utils.Includes (objects.PlayersReady d) id));
    "hm"; strconv.Itoa (utils.BoolToInt (negb (utils.Includes (objects.PlayersWithoutMap d) id))) ]%string.

(** [cachePlayer]. *)
Definition cachePlayer (game : Game) (id : Z) : M unit :=
  match sessions.GetUserById id with
  | None => mret tt
  | Some user =>
      let player := playerRecord game id user in
      err ← db_Redis (db.HSet (getPlayerRedisKey game id) player);
      match err with
      | Some e =>
          log_Printf ("Failed to cache multiplayer player in redis - " +:+ e +:+ LF)
      | None => mret tt
      end
  end.

(** [deleteCachedPlayer]. *)
Definition deleteCachedPlayer (game : Game) (userId : Z) : M unit :=
  err ← db_Redis (db.Del [getPlayerRedisKey game userId]);
  match err with
  | Some e =>
      log_Printf ("Failed to remove multiplayer player  in redis - " +:+ e +:+ LF)
  | None => mret tt
  end.
End code.
End multiplayer.

(** ** Reading a run *)

(** What a computation appends to the trace of the world it starts in. *)
Definition events_of {A : Type} (m : M A) (w : World) : list Event :=
  drop (length (trace w)) (trace (m w).2).

(** The outcomes of the serializations, the frames handed to connections,
    the frames the connections accepted, and the lines logged, in order. *)
Definition marshals (ev : list Event) : list (error + Bytes) :=
  omap (λ e, match e with EvMarshal r => Some r | _ => None end) ev.

Definition writes (ev : list Event) : list (net_Conn * Bytes) :=
  omap (λ e, match e with EvWrite c j _ => Some (c, j) | _ => None end) ev.

Definition delivered (ev : list Event) : list (net_Conn * Bytes) :=
  omap (λ e, match e with EvWrite c j None => Some (c, j) | _ => None end) ev.

Definition logged (ev : list Event) : list string :=
  omap (λ e, match e with EvLog l => Some l | _ => None end) ev.

Definition redis_calls (ev : list Event) : list db.RedisCmd :=
  omap (λ e, match e with EvRedis c _ => Some c | _ => None end) ev.

(** The field of the hash stored under a key, if both exist. *)
Definition hget (r : gmap string (gmap string string)) (key field : string)
    : option string :=
  r !! key ≫= λ h, h !! field.

(** A boolean as the text 0 or 1. *)
Definition bit (b : bool) : string := if b then "1" else "0".

(** The value of a decimal digit, and whether a character is one. *)
Definition digit_value (c : ascii) : option N :=
  let n := N_of_ascii c in
  if (48 <=? n)%N && (n <=? 57)%N then Some (n - 48)%N else None.

Definition is_digit (c : ascii) : bool := bool_decide (is_Some (digit_value c)).

(** The number a run of decimal digits denotes, read from the left. *)
Fixpoint parse_digits (s : string) (acc : N) : option N :=
  match s with
  | EmptyString => Some acc
  | String c s' => d ← digit_value c; parse_digits s' (10 * acc + d)%N
  end.

(** The integer a decimal text denotes: an optional minus sign and at
    least one digit; nothing else is an integer. *)
Definition parse_decimal (s : string) : option Z :=
  match s with
  | EmptyString => None
  | String c s' =>
      if bool_decide (c = "-"%char)
      then if bool_decide (s' = EmptyString) then None
           else (λ n, - Z.of_N n) <$> parse_digits s' 0
      else Z.of_N <$> parse_digits s 0
  end.

(** A run of at least one decimal digit. *)
Definition digit_run (l : list ascii) : bool :=
  bool_decide (l ≠ []) && forallb is_digit l.

(** The characters before the first point, and those after it if there is
    one. *)
Fixpoint split_point (l : list ascii) : list ascii * option (list ascii) :=
  match l with
  | [] => ([], None)
  | c :: l' =>
      if bool_decide (c = "."%char) then ([], Some l')
      else (c :: (split_point l').1, (split_point l').2)
  end.

(** Decimal text without exponent: an optional minus sign, digits, and
    optionally a point followed by digits. *)
Definition decimal_text (s : string) : bool :=
  let l := String.list_ascii_of_string s in
  let body := match l with
              | c :: l' => if bool_decide (c = "-"%char) then l' else l
              | [] => l
              end in
  match split_point body with
  | (int, None) => digit_run int
  | (int, Some frac) => digit_run int && digit_run frac
  end.

(** The row the database holds for a mode of a user. *)
Definition row_of {D : Decls} {Sv : Services} (u : sessions.User) (mode : common.Mode)
    : error + UserStats :=
  userstats_row (db.Id (sessions.Info u)) (db.Country (sessions.Info u)) mode.

(** What one send appends to the history [h], and what a broadcast to
    [users] appends to it: the second is the first, repeated for each
    recipient on the history as the previous sends left it. *)
Definition send_events {D : Decls} {Sv : Services} (data : Payload) (conn : net_Conn)
    (h : list Event) : list Event :=
  match marshal_result data h with
  | inl e => [EvMarshal (inl e); EvLog e]
  | inr j =>
      match write_result conn j (h ++ [EvMarshal (inr j)]) with
      | Some e => [EvMarshal (inr j); EvWrite conn j (Some e); EvLog e]
      | None => [EvMarshal (inr j); EvWrite conn j None; EvLog ("SENT - " +:+ j)]
      end
  end.

Fixpoint broadcast_events {D : Decls} {Sv : Services} (data : Payload) (users : list sessions.User)
    (h : list Event) : list Event :=
  match users with
  | [] => []
  | u :: users' =>
      let ev := send_events data (sessions.Conn u) h in
      ev ++ broadcast_events data users' (h ++ ev)
  end.

(** The write a recipient is owed once its serialization has an outcome. *)
Definition write_owed {D : Decls} (ur : sessions.User * (error + Bytes))
    : option (net_Conn * Bytes) :=
  match ur.2 with
  | inr j => Some (sessions.Conn ur.1, j)
  | inl _ => None
  end.

(** ** Concrete worlds, sessions and games *)

Module scenario.
(** Two modes (1 and 2) below the end marker; statistics rows and payloads
    are carried by plain values. *)
Definition decls : Decls :=
  {| ModeEnumMaxValue := 3; UserStats := Z; Payload := string |}.

(** Every service answers. *)
Definition healthy : @Services decls :=
  {| userstats_row := λ _ _ mode, inr (100 + mode : @UserStats decls);
     marshal_result := λ (data : @Payload decls) _, inr (data : Bytes);
     write_result := λ _ _ _, None;
     redis_fault := λ _ _, None |}.

(** The database answers for mode 1 and fails for mode 2. *)
Definition db_fails_at_2 : @Services decls :=
  {| userstats_row := λ _ _ mode,
       if bool_decide (mode = 2) then inl "sql: connection refused"%string
       else inr (100 + mode : @UserStats decls);
     marshal_result := λ (data : @Payload decls) _, inr (data : Bytes);
     write_result := λ _ _ _, None;
     redis_fault := λ _ _, None |}.

(** The connection with handle 1 is broken. *)
Definition conn1_broken : @Services decls :=
  {| userstats_row := λ _ _ mode, inr (100 + mode : @UserStats decls);
     marshal_result := λ (data : @Payload decls) _, inr (data : Bytes);
     write_result := λ c _ _,
       if bool_decide (c = 1) then Some "write: broken pipe"%string else None;
     redis_fault := λ _ _, None |}.

(** The payload cannot be serialized. *)
Definition unserializable : @Services decls :=
  {| userstats_row := λ _ _ mode, inr (100 + mode : @UserStats decls);
     marshal_result := λ _ _, inl "json: unsupported type"%string;
     write_result := λ _ _ _, None;
     redis_fault := λ _ _, None |}.

(** Redis is unreachable. *)
Definition redis_down : @Services decls :=
  {| userstats_row := λ _ _ mode, inr (100 + mode : @UserStats decls);
     marshal_result := λ (data : @Payload decls) _, inr (data : Bytes);
     write_result := λ _ _ _, None;
     redis_fault := λ _ _, Some "dial tcp: connection refused"%string |}.

Definition idle : objects.ClientStatus :=
  {| objects.Status := 0; objects.status_MapId := -1; objects.MapMd5 := "";
     objects.GameMode := common.ModeKeys4; objects.Content := "";
     objects.Modifiers := 0 |}.

Definition playing : objects.ClientStatus :=
  {| objects.Status := 2; objects.status_MapId := 1234; objects.MapMd5 := "d41d8";
     objects.GameMode := 2; objects.Content := "song"; objects.Modifiers := 4 |}.

Definition session (id conn : Z) (name tok : string) (muteEnd : Z)
    : @sessions.User decls :=
  {| sessions.Conn := conn; sessions.token := tok;
     sessions.Info :=
       {| db.Id := id; db.SteamId := "7656"; db.Username := name;
          db.UserGroups := 1; db.MuteEndTime := muteEnd; db.Country := "CA";
          db.AvatarUrl := "" |};
     sessions.mutex := id; sessions.stats := ∅;
     sessions.lastPingTimestamp := 0; sessions.lastPongTimestamp := 0;
     sessions.lastDetectedProcesses := []; sessions.status := idle |}.

(** A: user 1 on connection 1, B: user 7 on connection 2. *)
Definition A := session 1 1 "alice" "abc" 5000.
Definition B := session 7 2 "bob" "xyz" 0.

(** Only user 7 is online; the status write always succeeds. *)
Definition only_B : @sessions.Registry decls :=
  {| sessions.GetUserById := λ id, if bool_decide (id = 7) then Some B else None;
     sessions.status_write_result := λ _ _, None |}.

(** The status write fails. *)
Definition status_write_fails : @sessions.Registry decls :=
  {| sessions.GetUserById := λ id, if bool_decide (id = 7) then Some B else None;
     sessions.status_write_result := λ _ _, Some "redis: timeout"%string |}.

(** Room 42, eight seats, player 7 ready and in possession of the map; the
    rating is the float 12.34. *)
Definition room42 : multiplayer.Game :=
  {| multiplayer.Data :=
       {| objects.Id := 42; objects.Name := "lobby"; objects.HasPassword := false;
          objects.MaxPlayers := 8; objects.MapMD5 := "d41d8"; objects.MapId := 1234;
          objects.MapsetId := 56; objects.MapName := "Artist - Title";
          objects.HostId := 7; objects.Ruleset := 0; objects.IsHostRotation := true;
          objects.MapGameMode := 1; objects.MapDifficultyRating := 4623136420479977390;
          objects.InProgress := false; objects.GlobalModifiers := 0;
          objects.FreeModType := 0; objects.IsTournamentMode := false;
          objects.PlayerWins := [ {| objects.wins_Id := 7; objects.Wins := 3 |} ];
          objects.PlayerModifiers := [];
          objects.PlayersReady := [7];
          objects.PlayersWithoutMap := [] |} |}.

(** An empty cache at time 5000 with nothing recorded yet. *)
Definition boot : World := {| redis := ∅; now := 5000; trace := [] |}.
End scenario.

(** ** Package [sessions], continued: the other methods of [User] *)

Module user.
Import sessions.

(** [PacketUser], the user as sent in packets. *)
Record PacketUser := {
  Id : Z;
  SteamId : string;
  Username : string;
  UserGroups : common.UserGroups;
  MuteEndTime : Z;
  Country : string;
}.

Section code.
Context {D : Decls}.

(** [NewUser].  The token is what [utils.GenerateRandomString(64)] returned
    and the mutex is the one just allocated; both are inputs here.  The
    fields are evaluated in the order of the struct literal, so the clock
    is read twice. *)
Definition NewUser (conn : net_Conn) (user : db.User) (tok : string)
    (mu : Mutex) : M User :=
  ping ← time_Now_UnixMilli;
  pong ← time_Now_UnixMilli;
  mret {| Conn := conn; token := tok; Info := user; mutex := mu;
          stats := ∅;
          lastPingTimestamp := ping;
          lastPongTimestamp := pong;
          lastDetectedProcesses := [];
          status := {| objects.Status := 0; objects.status_MapId := -1;
                       objects.MapMd5 := ""; objects.GameMode := common.ModeKeys4;
                       objects.Content := ""; objects.Modifiers := 0 |} |}.

(** [u.lastPingTimestamp = t]. *)
Definition store_ping (u : User) (t : Z) : User :=
  {| Conn := Conn u; token := token u; Info := Info u; mutex := mutex u;
     stats := stats u;
     lastPingTimestamp := t;
     lastPongTimestamp := lastPongTimestamp u;
     lastDetectedProcesses := lastDetectedProcesses u;
     status := status u |}.

(** [u.lastPongTimestamp = t]. *)
Definition store_pong (u : User) (t : Z) : User :=
  {| Conn := Conn u; token := token u; Info := Info u; mutex := mutex u;
     stats := stats u;
     lastPingTimestamp := lastPingTimestamp u;
     lastPongTimestamp := t;
     lastDetectedProcesses := lastDetectedProcesses u;
     status := status u |}.

(** [u.lastDetectedProcesses = processes]. *)
Definition store_processes (u : User) (processes : list string) : User :=
  {| Conn := Conn u; token := token u; Info := Info u; mutex := mutex u;
     stats := stats u;
     lastPingTimestamp := lastPingTimestamp u;
     lastPongTimestamp := lastPongTimestamp u;
     lastDetectedProcesses := processes;
     status := status u |}.

(** [GetLastPingTimestamp]. *)
Definition GetLastPingTimestamp (u : User) : M Z :=
  Lock (mutex u);;
  let r := lastPingTimestamp u in
  Unlock (mutex u);;
  mret r.

(** [SetLastPingTimestamp]. *)
Definition SetLastPingTimestamp (u : User) : M User :=
  Lock (mutex u);;
  t ← time_Now_UnixMilli;
  let u := store_ping u t in
  Unlock (mutex u);;
  mret u.

(** [GetLastPongTimestamp]. *)
Definition GetLastPongTimestamp (u : User) : M Z :=
  Lock (mutex u);;
  let r := lastPongTimestamp u in
  Unlock (mutex u);;
  mret r.

(** [SetLastPongTimestamp]. *)
Definition SetLastPongTimestamp (u : User) : M User :=
  Lock (mutex u);;
  t ← time_Now_UnixMilli;
  let u := store_pong u t in
  Unlock (mutex u);;
  mret u.

(** [GetLastDetectedProcesses]. *)
Definition GetLastDetectedProcesses (u : User) : M (list string) :=
  Lock (mutex u);;
  let r := lastDetectedProcesses u in
  Unlock (mutex u);;
  mret r.

(** [SetLastDetectedProcesses]. *)
Definition SetLastDetectedProcesses (u : User) (processes : list string) : M User :=
  Lock (mutex u);;
  let u := store_processes u processes in
  Unlock (mutex u);;
  mret u.

(** [SerializeForPacket]. *)
Definition SerializeForPacket (u : User) : M PacketUser :=
  Lock (mutex u);;
  let r := {| Id := db.Id (Info u);
              SteamId := db.SteamId (Info u);
              Username := db.Username (Info u);
              UserGroups := db.UserGroups (Info u);
              MuteEndTime := db.MuteEndTime (Info u);
              Country := db.Country (Info u) |} in
  Unlock (mutex u);;
  mret r.
End code.
End user.

(** ** Package [sessions], continued: session tokens and the user counter
    in Redis *)

Module sessions_redis.

(** The three commands of this part of the package, with their arguments:
    [Set(ctx, key, value, 0)], [Keys(ctx, pattern)] and [Del(ctx, keys...)]. *)
Inductive Cmd :=
| SET (key value : string)
| KEYS (pattern : string)
| DEL (keys : list string).

(** The string-valued entries of Redis and the commands sent so far. *)
Record Cache := {
  entries : gmap string string;
  issued : list Cmd;
}.

(** Code of this part is a state transformer over the cache. *)
Definition C (A : Type) : Type := Cache → A * Cache.

#[global] Instance C_ret : MRet C := λ A a s, (a, s).
#[global] Instance C_bind : MBind C := λ A B f m s, let '(a, s') := m s in f a s'.

(** Whether a key matches a pattern whose only wildcard is a final star,
    as the pattern of this package is; every other character stands for
    itself. *)
Fixpoint glob (p k : string) : bool :=
  if bool_decide (p = "*"%string) then true else
  match p, k with
  | EmptyString, EmptyString => true
  | String c p', String c' k' => bool_decide (c = c') && glob p' k'
  | _, _ => false
  end.

(** The keys KEYS answers with. *)
Definition matching (p : string) (s : gmap string string) : list string :=
  filter (λ k, glob p k = true) (map_to_list s).*1.

(** What the code relies on without declaring it: the fault, if any, that
    makes a command fail given the commands sent so far; whether the
    server had carried the command out when the client met the fault (a
    reply can be lost after the server has acted); and the result of
    [GetOnlineUserCount], which belongs to the session registry. *)
Class Env := {
  fault : Cmd → list Cmd → option error;
  applied : Cmd → list Cmd → bool;
  GetOnlineUserCount : Z;
}.

Section code.
Context {D : Decls} {E : Env}.

Definition sent (c : Cmd) (es : gmap string string) : C unit :=
  λ s, (tt, {| entries := es; issued := issued s ++ [c] |}).

(** [db.Redis.Set(db.RedisCtx, key, value, 0).Result()], keeping the error.
    The client can see a fault although the server has stored the value. *)
Definition Redis_Set (key value : string) : C (option error) :=
  λ s,
    match fault (SET key value) (issued s) with
    | Some e =>
        (sent (SET key value)
           (if applied (SET key value) (issued s)
            then <[key := value]> (entries s) else entries s);;
         mret (Some e)) s
    | None => (sent (SET key value) (<[key := value]> (entries s));; mret None) s
    end.

(** [db.Redis.Keys(db.RedisCtx, pattern).Result()]. *)
Definition Redis_Keys (pattern : string) : C (error + list string) :=
  λ s,
    match fault (KEYS pattern) (issued s) with
    | Some e => (sent (KEYS pattern) (entries s);; mret (inl e)) s
    | None =>
        (sent (KEYS pattern) (entries s);;
         mret (inr (matching pattern (entries s)))) s
    end.

(** [db.Redis.Del(db.RedisCtx, keys...).Result()], keeping the error.  The
    server refuses a DEL without keys, and the client can see a fault
    although the server has deleted the keys. *)
Definition Redis_Del (keys : list string) : C (option error) :=
  λ s,
    match fault (DEL keys) (issued s) with
    | Some e =>
        (sent (DEL keys)
           (if applied (DEL keys) (issued s)
            then foldl (λ es k, delete k es) (entries s) keys else entries s);;
         mret (Some e)) s
    | None =>
        match keys with
        | [] =>
            (sent (DEL keys) (entries s);;
             mret (Some "ERR wrong number of arguments for 'del' command"%string)) s
        | _ =>
            (sent (DEL keys) (foldl (λ es k, delete k es) (entries s) keys);;
             mret None) s
        end
    end.

(** [UpdateRedisOnlineUserCount]. *)
Definition UpdateRedisOnlineUserCount : C (option error) :=
  err ← Redis_Set "quaver:server:online_users" (strconv.Itoa GetOnlineUserCount);
  match err with
  | Some e => mret (Some e)
  | None => mret None
  end.

(** [ClearRedisUserTokens]. *)
Definition ClearRedisUserTokens : C (option error) :=
  r ← Redis_Keys "quaver:server:session:*";
  match r with
  | inl err => mret (Some err)
  | inr keys =>
      if bool_decide (length keys = 0%nat) then mret None
      else
        err ← Redis_Del keys;
        match err with
        | Some e => mret (Some e)
        | None => mret None
        end
  end.

(** [addUserTokenToRedis]. *)
Definition addUserTokenToRedis (user : sessions.User) : C (option error) :=
  err ← Redis_Set (sessions.getRedisSessionKey user)
          (strconv.Itoa (db.Id (sessions.Info user)));
  match err with
  | Some e => mret (Some e)
  | None => mret None
  end.

(** [removeUserTokenFromRedis]. *)
Definition removeUserTokenFromRedis (user : sessions.User) : C (option error) :=
  err ← Redis_Del [sessions.getRedisSessionKey user];
  match err with
  | Some e => mret (Some e)
  | None => mret None
  end.
End code.
End sessions_redis.

(** ** Reading keys and runs, continued *)

(** The field and value pairs of a flat HSET argument slice (none when the
    slice is odd). *)
Definition fields_of (values : list string) : list (string * string) :=
  default [] (redis_model.pair_up values).

(** Whether a string holds a colon. *)
Fixpoint has_colon (s : string) : bool :=
  match s with
  | EmptyString => false
  | String c s' => bool_decide (c = ":"%char) || has_colon s'
  end.

(** The recipients whose send failed: the serializations that failed and
    the writes that failed, in order. *)
Definition failures (ev : list Event) : list error :=
  omap (λ e, match e with
             | EvMarshal (inl err) => Some err
             | EvWrite _ _ (Some err) => Some err
             | _ => None
             end) ev.

(** The modes looked up in the database, in order. *)
Definition lookups (ev : list Event) : list common.Mode :=
  omap (λ e, match e with EvGetUserStats _ _ mode => Some mode | _ => None end) ev.

(** The tracked modes: 1 up to [ModeEnumMaxValue - 1]. *)
Definition tracked_modes {D : Decls} : list common.Mode :=
  seqZ 1 (ModeEnumMaxValue - 1).

(** ** A room whose rating is not a number *)

Module float_scenario.
(** Room 42 with a difficulty rating that is NaN. *)
Definition room42_nan : multiplayer.Game :=
  {| multiplayer.Data :=
       {| objects.Id := 42; objects.Name := "lobby"; objects.HasPassword := false;
          objects.MaxPlayers := 8; objects.MapMD5 := "d41d8"; objects.MapId := 1234;
          objects.MapsetId := 56; objects.MapName := "Artist - Title";
          objects.HostId := 7; objects.Ruleset := 0; objects.IsHostRotation := true;
          objects.MapGameMode := 1;
          objects.MapDifficultyRating := 9221120237041090560;
          objects.InProgress := false; objects.GlobalModifiers := 0;
          objects.FreeModType := 0; objects.IsTournamentMode := false;
          objects.PlayerWins := []; objects.PlayerModifiers := [];
          objects.PlayersReady := []; objects.PlayersWithoutMap := [] |} |}.
End float_scenario.

(** ** Concrete caches of session tokens *)

Module token_scenario.
(** Every command goes through; two users are online. *)
Definition calm : sessions_redis.Env :=
  {| sessions_redis.fault := λ _ _, None;
     sessions_redis.applied := λ _ _, false;
     sessions_redis.GetOnlineUserCount := 2 |}.

(** Redis is unreachable: no command gets to the server. *)
Definition unreachable : sessions_redis.Env :=
  {| sessions_redis.fault := λ _ _, Some "dial tcp: connection refused"%string;
     sessions_redis.applied := λ _ _, false;
     sessions_redis.GetOnlineUserCount := 2 |}.

(** The replies to the writing commands are lost: the server carries out
    every SET and DEL, and the client times out waiting for the answer. *)
Definition reply_lost : sessions_redis.Env :=
  {| sessions_redis.fault :=
       λ c _, match c with
              | sessions_redis.KEYS _ => None
              | _ => Some "read tcp: i/o timeout"%string
              end;
     sessions_redis.applied := λ _ _, true;
     sessions_redis.GetOnlineUserCount := 2 |}.

(** The token of a past session and the user counter. *)
Definition stale : sessions_redis.Cache :=
  {| sessions_redis.entries :=
       {[ "quaver:server:session:old" := "9";
          "quaver:server:online_users" := "1" ]}%string;
     sessions_redis.issued := [] |}.

(** The user counter alone. *)
Definition clean : sessions_redis.Cache :=
  {| sessions_redis.entries := {[ "quaver:server:online_users" := "1" ]}%string;
     sessions_redis.issued := [] |}.
End token_scenario.

(** * Properties *)

(** Unfolds the state transformer so that a straight-line method runs. *)
Ltac run :=
  unfold events_of, mbind, M_bind, mret, M_ret, history, get_redis,
    set_redis, Lock, Unlock, time_Now_UnixMilli, log_Println, log_Printf;
  unfold emit; simpl.

Section session_properties.
Context {D : Decls} {Sv : Services} {Rg : sessions.Registry}.
Import sessions.

(** C4.  [IsMuted] answers true exactly when the stored mute-expiry
    timestamp is strictly greater than the current time; when the two are
    equal it answers false; and all it does besides reading the clock is
    to take and release the session's own mutex: no call to the database,
    to Redis or to the network is made, and the cache and the clock are
    left as they were. *)
Theorem IsMuted_iff_expiry_after_now (u : User) (w : World) :
  ((IsMuted u w).1 = true ↔ db.MuteEndTime (Info u) > now w)
  ∧ (∀ r tr, (IsMuted u {| redis := r; now := db.MuteEndTime (Info u);
                           trace := tr |}).1 = false)
  ∧ events_of (IsMuted u) w = [EvLock (mutex u); EvUnlock (mutex u)]
  ∧ Forall (λ e, external e = false) (events_of (IsMuted u) w)
  ∧ redis (IsMuted u w).2 = redis w
  ∧ now (IsMuted u w).2 = now w.
Proof.
  assert (Hev : events_of (IsMuted u) w = [EvLock (mutex u); EvUnlock (mutex u)]).
  { unfold IsMuted. run. rewrite <- app_assoc. by rewrite drop_app_length. }
  split_and!.
  - unfold IsMuted. run. apply bool_decide_eq_true.
  - intros r tr. unfold IsMuted. run. apply bool_decide_eq_false. lia.
  - exact Hev.
  - rewrite Hev. by repeat constructor.
  - reflexivity.
  - reflexivity.
Qed.

(** C6.  [SetClientStatus] replaces the status of the session by the new
    value and leaves every other field alone; the propagation to the
    cache is attempted exactly once, on the session's client-status key,
    and only after the mutex has been released; when it fails the error
    is logged and nothing else happens, and whether it fails or not a
    following [GetClientStatus] returns the status just set. *)
Theorem SetClientStatus_stands_whatever_the_cache_does
    (u : User) (st : objects.ClientStatus) (w : World) :
  let u' := (SetClientStatus u st w).1 in
  let w' := (SetClientStatus u st w).2 in
  let r := status_write_result (store_status u st)
             (trace w ++ [EvLock (mutex u); EvUnlock (mutex u)]) in
  u' = store_status u st
  ∧ status u' = st
  ∧ (GetClientStatus u' w').1 = st
  ∧ events_of (SetClientStatus u st) w =
      [EvLock (mutex u); EvUnlock (mutex u);
       EvRedisStatus (getRedisClientStatusKey u) r]
      ++ match r with Some e => [EvLog e] | None => [] end
  ∧ redis w' = redis w.
Proof.
  unfold SetClientStatus, addUserClientStatusToRedis, GetClientStatus. run.
  rewrite <- !app_assoc. simpl.
  destruct (status_write_result _ _) as [e|]; simpl;
    rewrite <- ?app_assoc; simpl;
    rewrite (drop_app_length (trace w)); done.
Qed.

(** The loop of [SetStats] started at mode [i] for [n] iterations, when
    [k] is where it stops: every mode from [i] up to [k] has a row, and
    either [k] is the first mode without one or [k] is past the last
    iteration.  The modes below [k] hold their fresh rows, every other
    entry is untouched, and the result is the error met at [k], if any. *)
Lemma SetStats_loop_stops_at (n : nat) :
  ∀ (i : Z) (u : User) (w : World) (k : Z),
    i ≤ k ≤ i + Z.of_nat n →
    (∀ m, i ≤ m < k → ∃ s, row_of u m = inr s) →
    (k < i + Z.of_nat n → ∃ e, row_of u k = inl e) →
    let r := (SetStats_loop n i u w).1.1 in
    let u' := (SetStats_loop n i u w).1.2 in
    r = (if bool_decide (k < i + Z.of_nat n)
         then match row_of u k with inl e => Some e | inr _ => None end
         else None)
    ∧ Info u' = Info u
    ∧ (∀ m, i ≤ m < k → ∃ s, row_of u m = inr s ∧ stats u' !! m = Some s)
    ∧ (∀ m, ¬ (i ≤ m < k) → stats u' !! m = stats u !! m).
Proof.
  induction n as [|n IH]; intros i u w k Hk Hbelow Hstop.
  - simpl. rewrite bool_decide_eq_false_2 by lia.
    split_and!; [done | done | intros; lia | done].
  - cbn [SetStats_loop]. unfold db_GetUserStats. run.
    fold (row_of u i).
    destruct (decide (k = i)) as [->|Hne].
    + destruct Hstop as [e He]; [lia|].
      rewrite He. simpl. rewrite bool_decide_eq_true_2 by lia.
      split_and!; [done | done | intros; lia | done].
    + destruct (Hbelow i) as [s Hs]; [lia|].
      rewrite Hs.
      set (u1 := store_stats u i s).
      set (w1 := {| redis := _; now := _; trace := _ |}).
      assert (Hrow : ∀ m, row_of u1 m = row_of u m) by done.
      destruct (IH (i + 1) u1 w1 k) as (Hr & HInfo & Hlo & Hhi).
      * lia.
      * intros m Hm. rewrite Hrow. apply Hbelow. lia.
      * intros Hlt. rewrite Hrow. apply Hstop. lia.
      * rewrite Hrow in Hr. split_and!.
        -- rewrite Hr.
           rewrite (bool_decide_ext (k < i + 1 + Z.of_nat n)
                      (k < i + Z.of_nat (S n))) by lia.
           done.
        -- by rewrite HInfo.
        -- intros m Hm. destruct (decide (m = i)) as [->|Hmi].
           ++ exists s. split; [done|].
              rewrite Hhi by lia. subst u1. simpl. apply lookup_insert_eq.
           ++ destruct (Hlo m) as (s' & Hs' & Hl); [lia|].
              exists s'. by rewrite <- Hrow.
        -- intros m Hm. rewrite Hhi by lia.
           subst u1. simpl. apply lookup_insert_ne. lia.
Qed.

(** [SetStats] is its loop between taking and releasing the mutex. *)
Lemma SetStats_is_its_loop (u : User) (w : World) :
  (SetStats u w).1 =
  (SetStats_loop (Z.to_nat (ModeEnumMaxValue - 1)) 1 u
     {| redis := redis w; now := now w;
        trace := trace w ++ [EvLock (mutex u)] |}).1.
Proof.
  unfold SetStats. run.
  by destruct (SetStats_loop _ _ _ _) as [[r u'] w'].
Qed.

(** C1, as the code has it.  [SetStats] stores each row as soon as it is
    loaded.  When the lookup first fails at a tracked mode [k], the
    failure is returned, the modes below [k] already hold their fresh
    rows and every other entry is as before the call.  So the stored map
    is what it was if and only if every mode below [k] held, before the
    call, the very row that the call loads for it: always when the first
    mode fails, and otherwise only when the call had nothing new to
    store.  When every lookup succeeds, no failure is returned and all
    tracked modes (1 up to [ModeEnumMaxValue - 1]) hold their fresh rows,
    nothing else being touched. *)
Theorem SetStats_stores_rows_up_to_first_failure (u : User) (w : World) :
  let r := (SetStats u w).1.1 in
  let u' := (SetStats u w).1.2 in
  (∀ k e,
     1 ≤ k < ModeEnumMaxValue →
     row_of u k = inl e →
     (∀ m, 1 ≤ m < k → ∃ s, row_of u m = inr s) →
     r = Some e
     ∧ (∀ m, 1 ≤ m < k → ∃ s, row_of u m = inr s ∧ stats u' !! m = Some s)
     ∧ (∀ m, ¬ (1 ≤ m < k) → stats u' !! m = stats u !! m)
     ∧ (stats u' = stats u
        ↔ ∀ m, 1 ≤ m < k → ∃ s, row_of u m = inr s ∧ stats u !! m = Some s)
     ∧ (k = 1 → stats u' = stats u))
  ∧ ((∀ m, 1 ≤ m < ModeEnumMaxValue → ∃ s, row_of u m = inr s) →
     r = None
     ∧ (∀ m, 1 ≤ m < ModeEnumMaxValue →
          ∃ s, row_of u m = inr s ∧ stats u' !! m = Some s)
     ∧ (∀ m, ¬ (1 ≤ m < ModeEnumMaxValue) → stats u' !! m = stats u !! m)).
Proof.
  cbv zeta. rewrite SetStats_is_its_loop.
  set (n := Z.to_nat (ModeEnumMaxValue - 1)).
  set (w0 := {| redis := _; now := _; trace := _ |}).
  split.
  - intros k e Hk He Hbelow.
    destruct (SetStats_loop_stops_at n 1 u w0 k) as (Hr & _ & Hlo & Hhi);
      [lia | done | by eauto |].
    rewrite He, bool_decide_eq_true_2 in Hr by lia.
    split_and!; [done | done | done | |].
    + split.
      * intros Heq m Hm. destruct (Hlo m Hm) as (s & Hs & Hl).
        exists s. split; [done|]. by rewrite <- Heq.
      * intros Hsame. apply map_eq. intros m.
        destruct (decide (1 ≤ m < k)) as [Hm|Hm]; [|by apply Hhi].
        destruct (Hlo m Hm) as (s & Hs & Hl).
        destruct (Hsame m Hm) as (s' & Hs' & Hl').
        etrans; [exact Hl|]. symmetry. etrans; [exact Hl'|]. congruence.
    + intros ->. apply map_eq. intros m. apply Hhi. lia.
  - intros Hall.
    destruct (SetStats_loop_stops_at n 1 u w0 (1 + Z.of_nat n))
      as (Hr & _ & Hlo & Hhi); [lia | | lia |].
    { intros m Hm. apply Hall. lia. }
    rewrite bool_decide_eq_false_2 in Hr by lia.
    split_and!; [done | |].
    + intros m Hm. apply Hlo. lia.
    + intros m Hm. apply Hhi. lia.
Qed.
End session_properties.

Section broadcast_properties.
Context {D : Decls} {Sv : Services}.
Import sessions.

Lemma SendPacketToConnection_run (data : Payload) (conn : net_Conn) (w : World) :
  SendPacketToConnection data conn w =
  (tt, {| redis := redis w; now := now w;
          trace := trace w ++ send_events data conn (trace w) |}).
Proof.
  unfold SendPacketToConnection, json_Marshal, wsutil_WriteServerText,
    send_events. run.
  destruct (marshal_result data (trace w)) as [e|j]; simpl.
  - by rewrite <- app_assoc.
  - destruct (write_result conn j _) as [e|]; simpl;
      by rewrite <- ?app_assoc.
Qed.

Lemma SendPacketToUsers_run (data : Payload) (users : list User) :
  ∀ w, SendPacketToUsers data users w =
       (tt, {| redis := redis w; now := now w;
               trace := trace w ++ broadcast_events data users (trace w) |}).
Proof.
  induction users as [|u users IH]; intros w.
  - simpl. unfold mret, M_ret. rewrite app_nil_r. by destruct w.
  - cbn [SendPacketToUsers broadcast_events].
    unfold mbind, M_bind, SendPacketToUser.
    rewrite SendPacketToConnection_run, IH. simpl.
    by rewrite <- app_assoc.
Qed.

Lemma SendPacketToUsers_events (data : Payload) (users : list User) (w : World) :
  events_of (SendPacketToUsers data users) w =
  broadcast_events data users (trace w).
Proof.
  unfold events_of. rewrite SendPacketToUsers_run. simpl.
  apply drop_app_length.
Qed.

(** One send: one serialization, the write it owes, one line logged. *)
Lemma send_events_marshals data conn h :
  marshals (send_events data conn h) = [marshal_result data h].
Proof.
  unfold send_events. destruct (marshal_result data h) as [e|j]; [done|].
  by destruct (write_result conn j _).
Qed.

Lemma send_events_writes data conn h :
  writes (send_events data conn h) =
  match marshal_result data h with inr j => [(conn, j)] | inl _ => [] end.
Proof.
  unfold send_events. destruct (marshal_result data h) as [e|j]; [done|].
  by destruct (write_result conn j _).
Qed.

Lemma send_events_logged data conn h :
  length (logged (send_events data conn h)) = 1%nat.
Proof.
  unfold send_events. destruct (marshal_result data h) as [e|j]; [done|].
  by destruct (write_result conn j _).
Qed.

Lemma send_events_failure_logged data conn h e :
  (EvMarshal (inl e) ∈ send_events data conn h
   ∨ ∃ c j, EvWrite c j (Some e) ∈ send_events data conn h) →
  e ∈ logged (send_events data conn h).
Proof.
  unfold send_events. destruct (marshal_result data h) as [e'|j];
    [|destruct (write_result conn j _) as [e'|]];
    intros [Hin|(c & j' & Hin)]; simpl;
    repeat (apply elem_of_cons in Hin as [Hin|Hin]; [simplify_eq|]);
    try (by apply elem_of_nil in Hin);
    apply list_elem_of_here.
Qed.

Lemma send_events_delivered data conn h j :
  (∀ h, marshal_result data h = inr j) →
  (∀ h, write_result conn j h = None) →
  delivered (send_events data conn h) = [(conn, j)].
Proof.
  intros Hm Hw. unfold send_events. by rewrite Hm, Hw.
Qed.

(** A broadcast: the same, recipient after recipient. *)
Lemma broadcast_events_marshals data users :
  ∀ h, length (marshals (broadcast_events data users h)) = length users.
Proof.
  induction users as [|u users IH]; intros h; [done|].
  cbn [broadcast_events]. unfold marshals in *. rewrite omap_app.
  fold (marshals (send_events data (Conn u) h)).
  rewrite send_events_marshals, length_app, IH. done.
Qed.

Lemma broadcast_events_writes data users :
  ∀ h, writes (broadcast_events data users h) =
       omap write_owed (zip users (marshals (broadcast_events data users h))).
Proof.
  induction users as [|u users IH]; intros h; [done|].
  cbn [broadcast_events]. unfold writes, marshals in *. rewrite !omap_app.
  fold (marshals (send_events data (Conn u) h)).
  fold (writes (send_events data (Conn u) h)).
  rewrite send_events_marshals, send_events_writes, IH. simpl.
  unfold write_owed at 2. simpl.
  by destruct (marshal_result data h).
Qed.

Lemma broadcast_events_writes_pure data users j :
  (∀ h, marshal_result data h = inr j) →
  ∀ h, writes (broadcast_events data users h) = (λ u, (Conn u, j)) <$> users.
Proof.
  intros Hm. induction users as [|u users IH]; intros h; [done|].
  cbn [broadcast_events]. unfold writes in *. rewrite omap_app.
  fold (writes (send_events data (Conn u) h)).
  by rewrite send_events_writes, Hm, IH.
Qed.

Lemma broadcast_events_logged data users :
  ∀ h, length (logged (broadcast_events data users h)) = length users.
Proof.
  induction users as [|u users IH]; intros h; [done|].
  cbn [broadcast_events]. unfold logged in *. rewrite omap_app.
  fold (logged (send_events data (Conn u) h)).
  rewrite length_app, send_events_logged, IH. done.
Qed.

Lemma broadcast_events_failure_logged data users e :
  ∀ h, (EvMarshal (inl e) ∈ broadcast_events data users h
        ∨ ∃ c j, EvWrite c j (Some e) ∈ broadcast_events data users h) →
       e ∈ logged (broadcast_events data users h).
Proof.
  induction users as [|u users IH]; intros h.
  - intros [Hin|(c & j & Hin)]; by apply elem_of_nil in Hin.
  - cbn [broadcast_events]. unfold logged in *. rewrite omap_app.
    fold (logged (send_events data (Conn u) h)).
    intros Hfail. apply elem_of_app.
    assert ((EvMarshal (inl e) ∈ send_events data (Conn u) h
             ∨ ∃ c j, EvWrite c j (Some e) ∈ send_events data (Conn u) h)
            ∨ (EvMarshal (inl e) ∈ broadcast_events data users
                                     (h ++ send_events data (Conn u) h)
               ∨ ∃ c j, EvWrite c j (Some e) ∈ broadcast_events data users
                                     (h ++ send_events data (Conn u) h)))
      as [Hhere|Hlater].
    { destruct Hfail as [Hin|(c & j & Hin)];
        apply elem_of_app in Hin as [Hin|Hin]; eauto 6. }
    + left. by apply send_events_failure_logged.
    + right. by apply IH.
Qed.

Lemma broadcast_events_delivered data users b j :
  b ∈ users →
  (∀ h, marshal_result data h = inr j) →
  (∀ h, write_result (Conn b) j h = None) →
  ∀ h, (Conn b, j) ∈ delivered (broadcast_events data users h).
Proof.
  intros Hb Hm Hw. induction Hb as [b users|b u users Hb IH]; intros h;
    cbn [broadcast_events]; unfold delivered in *; rewrite omap_app;
    apply elem_of_app.
  - left. fold (delivered (send_events data (Conn b) h)).
    rewrite (send_events_delivered _ _ _ j) by done. apply list_elem_of_here.
  - right. by apply IH.
Qed.

(** C2, as the code has it.  [SendPacketToUsers] serializes the payload
    once for every recipient (so as many times as there are recipients,
    and not at all for an empty list), and the frame handed to a
    recipient's connection is the outcome of that recipient's own
    serialization: the frames written are, in order, one per recipient
    whose serialization succeeded, on that recipient's connection.  When
    serialization depends on the payload only and yields [j], every
    recipient's connection is handed [j]. *)
Theorem SendPacketToUsers_serializes_for_each_recipient
    (data : Payload) (users : list User) (w : World) :
  let ev := events_of (SendPacketToUsers data users) w in
  length (marshals ev) = length users
  ∧ writes ev = omap write_owed (zip users (marshals ev))
  ∧ (∀ j, (∀ h, marshal_result data h = inr j) →
          writes ev = (λ u, (Conn u, j)) <$> users).
Proof.
  cbv zeta. rewrite SendPacketToUsers_events. split_and!.
  - apply broadcast_events_marshals.
  - apply broadcast_events_writes.
  - intros j Hm. by apply broadcast_events_writes_pure.
Qed.

(** C3, as the code has it.  [SendPacketToUsers] returns no error and
    changes nothing but the trace; whatever fails for one recipient, the
    send is still run for every other one: the payload is serialized for
    each recipient, and the write is attempted for every recipient whose
    own serialization succeeded (for all of them when the payload
    serializes, whichever writes fail); each failed serialization and each
    failed write is logged, one line being logged per recipient; and a
    recipient for whom serialization and the connection work receives
    the frame whatever happens to the others, so that for recipients A
    then B a write failure on A still delivers to B. *)
Theorem SendPacketToUsers_isolates_recipients
    (data : Payload) (users : list User) (w : World) :
  let out := SendPacketToUsers data users w in
  let ev := events_of (SendPacketToUsers data users) w in
  out.1 = tt ∧ redis out.2 = redis w ∧ now out.2 = now w
  ∧ length (marshals ev) = length users
  ∧ (∀ i u j, users !! i = Some u → marshals ev !! i = Some (inr j) →
              (Conn u, j) ∈ writes ev)
  ∧ (∀ j, (∀ h, marshal_result data h = inr j) →
          ∀ u, u ∈ users → (Conn u, j) ∈ writes ev)
  ∧ (∀ e, EvMarshal (inl e) ∈ ev → e ∈ logged ev)
  ∧ (∀ c j e, EvWrite c j (Some e) ∈ ev → e ∈ logged ev)
  ∧ length (logged ev) = length users
  ∧ (∀ b j, b ∈ users →
            (∀ h, marshal_result data h = inr j) →
            (∀ h, write_result (Conn b) j h = None) →
            (Conn b, j) ∈ delivered ev).
Proof.
  cbv zeta. rewrite SendPacketToUsers_events, SendPacketToUsers_run. simpl.
  split_and!; try done.
  - apply broadcast_events_marshals.
  - intros i u j Hu Hj. rewrite broadcast_events_writes.
    apply list_elem_of_omap. exists (u, inr j). split; [|done].
    apply list_elem_of_lookup. exists i.
    rewrite lookup_zip_with, Hu. simpl. by rewrite Hj.
  - intros j Hm u Hu. rewrite (broadcast_events_writes_pure _ _ j) by done.
    apply list_elem_of_fmap. by exists u.
  - intros e He. apply broadcast_events_failure_logged. by left.
  - intros c j e He. apply broadcast_events_failure_logged. right. eauto.
  - apply broadcast_events_logged.
  - intros b j Hb Hm Hw. by apply broadcast_events_delivered.
Qed.
End broadcast_properties.

(** ** Decimal texts

    What the texts of [strconv] denote: an integer printed in base 10 reads
    back as that integer, and a float that is a number prints as digits with
    at most one point. *)
Section decimal_text_properties.

Lemma digit_value_pretty_N_char (d : N) :
  (d < 10)%N → digit_value (pretty_N_char d) = Some d.
Proof.
  intros Hd.
  assert (d = 0 ∨ d = 1 ∨ d = 2 ∨ d = 3 ∨ d = 4 ∨ d = 5 ∨ d = 6 ∨ d = 7
          ∨ d = 8 ∨ d = 9)%N as Hcases by lia.
  repeat (destruct Hcases as [->|Hcases]; [done|]). by subst.
Qed.

(** Reading the digits that [pretty_N_go] puts in front of a text shifts
    the number read so far and adds the number printed. *)
Lemma parse_digits_pretty_N_go (x : N) :
  ∀ s acc, ∃ p, parse_digits (pretty_N_go x s) acc
                = parse_digits s (acc * p + x)%N.
Proof.
  induction (N.lt_wf_0 x) as [x _ IH]; intros s acc.
  assert (x = 0 ∨ 0 < x)%N as [->|Hpos] by lia.
  - exists 1%N. rewrite pretty_N_go_0. f_equal. lia.
  - rewrite pretty_N_go_step by done.
    destruct (IH (x `div` 10)%N (N.div_lt x 10 Hpos eq_refl)
                (String (pretty_N_char (x `mod` 10)) s) acc) as [p Hp].
    exists (10 * p)%N. rewrite Hp. cbn [parse_digits].
    rewrite digit_value_pretty_N_char by (apply N.mod_lt; lia).
    cbn. f_equal. pose proof (N.div_mod x 10). lia.
Qed.

(** The decimal text of an integer denotes that integer. *)
Lemma parse_decimal_pretty (z : Z) : parse_decimal (pretty z) = Some z.
Proof.
  assert (Hpos : ∀ p : positive,
            ∃ c s, pretty_N_go (N.pos p) "" = String c s
                   ∧ c ≠ "-"%char
                   ∧ parse_digits (String c s) 0 = Some (N.pos p)).
  { intros p.
    destruct (parse_digits_pretty_N_go (N.pos p) "" 0) as [q Hq].
    cbn [parse_digits] in Hq. rewrite N.mul_0_l, N.add_0_l in Hq.
    destruct (pretty_N_go (N.pos p) "") as [|c s] eqn:Hgo; [done|].
    exists c, s. split_and!; [done| |done].
    intros ->. by apply (pretty_N_go_ne_dash (N.pos p) "" s). }
  unfold pretty, pretty_Z. destruct z as [|p|p]; [done|..].
  - unfold pretty, pretty_positive, pretty, pretty_N.
    rewrite decide_False by done.
    destruct (Hpos p) as (c & s & -> & Hc & Hparse).
    unfold parse_decimal. rewrite bool_decide_eq_false_2 by done.
    by rewrite Hparse.
  - unfold pretty, pretty_positive, pretty, pretty_N.
    rewrite decide_False by done.
    destruct (Hpos p) as (c & s & -> & Hc & Hparse).
    change ("-" +:+ String c s) with (String "-" (String c s)).
    unfold parse_decimal. rewrite bool_decide_eq_true_2 by done.
    rewrite bool_decide_eq_false_2 by done.
    by rewrite Hparse.
Qed.

Lemma forallb_is_digit (l : list ascii) :
  forallb is_digit l = true ↔ Forall (λ c, is_digit c = true) l.
Proof.
  induction l as [|c l IH]; cbn [forallb].
  - split; [by constructor|done].
  - rewrite andb_true_iff, IH, Forall_cons. done.
Qed.

Lemma digit_run_iff (l : list ascii) :
  digit_run l = true ↔ l ≠ [] ∧ Forall (λ c, is_digit c = true) l.
Proof.
  unfold digit_run.
  by rewrite andb_true_iff, bool_decide_eq_true, forallb_is_digit.
Qed.

Lemma is_digit_pretty_N_char (d : N) :
  (d < 10)%N → is_digit (pretty_N_char d) = true.
Proof.
  intros Hd. unfold is_digit. apply bool_decide_eq_true.
  rewrite digit_value_pretty_N_char by done. by eexists.
Qed.

Lemma pretty_N_go_digits (x : N) :
  ∀ s, Forall (λ c, is_digit c = true) (String.list_ascii_of_string s) →
       Forall (λ c, is_digit c = true)
         (String.list_ascii_of_string (pretty_N_go x s)).
Proof.
  induction (N.lt_wf_0 x) as [x _ IH]; intros s Hs.
  assert (x = 0 ∨ 0 < x)%N as [->|Hpos] by lia.
  - by rewrite pretty_N_go_0.
  - rewrite pretty_N_go_step by done.
    apply IH; [by apply N.div_lt|].
    cbn [String.list_ascii_of_string]. constructor; [|done].
    apply is_digit_pretty_N_char, N.mod_lt. lia.
Qed.

Lemma pretty_N_digits (n : N) :
  Forall (λ c, is_digit c = true) (String.list_ascii_of_string (pretty n)).
Proof.
  unfold pretty, pretty_N. case_decide.
  - by repeat constructor.
  - apply pretty_N_go_digits. constructor.
Qed.

Lemma strip_zeros_digits (ds : list ascii) :
  Forall (λ c, is_digit c = true) ds →
  Forall (λ c, is_digit c = true) (strconv.strip_zeros ds).
Proof.
  induction 1 as [|c ds Hc _ IH]; cbn [strconv.strip_zeros]; [done|].
  destruct (strconv.strip_zeros ds) as [|r rs].
  - case_bool_decide; by repeat constructor.
  - by constructor.
Qed.

(** No digit is a point or a minus sign. *)
Lemma is_digit_not_point (c : ascii) :
  is_digit c = true → c ≠ "."%char ∧ c ≠ "-"%char.
Proof. intros Hc. split; by intros ->. Qed.

Lemma split_point_digits (I F : list ascii) :
  Forall (λ c, is_digit c = true) I →
  split_point (I ++ F) = (I ++ (split_point F).1, (split_point F).2).
Proof.
  induction 1 as [|c I Hc _ IH]; cbn [app split_point].
  - by destruct (split_point F).
  - rewrite bool_decide_eq_false_2 by by apply is_digit_not_point.
    by rewrite IH.
Qed.

(** A sign, a run of digits and, if any, a point with a run of digits
    make a decimal text. *)
Lemma decimal_text_of_parts (neg : bool) (I : list ascii)
    (F : option (list ascii)) :
  digit_run I = true →
  (∀ G, F = Some G → digit_run G = true) →
  decimal_text
    (String.string_of_list_ascii
       ((if neg then ["-"%char] else [])
        ++ I ++ match F with Some G => "."%char :: G | None => [] end))
  = true.
Proof.
  intros [HI HdI]%digit_run_iff HF. unfold decimal_text.
  rewrite String.list_ascii_of_string_of_list_ascii.
  set (tail := match F with Some G => "."%char :: G | None => [] end).
  assert (match (if neg then ["-"%char] else []) ++ I ++ tail with
          | c :: l' => if bool_decide (c = "-"%char) then l'
                       else (if neg then ["-"%char] else []) ++ I ++ tail
          | [] => (if neg then ["-"%char] else []) ++ I ++ tail
          end = I ++ tail) as ->.
  { destruct neg; [done|]. cbn [app].
    destruct I as [|c I]; [done|]. cbn [app].
    apply Forall_cons in HdI as [Hc _].
    by rewrite bool_decide_eq_false_2 by by apply is_digit_not_point. }
  rewrite split_point_digits by done. subst tail.
  destruct F as [G|]; cbn [split_point fst snd].
  - rewrite bool_decide_eq_true_2 by done. cbn [fst snd].
    rewrite app_nil_r, (HF G eq_refl), andb_true_r.
    by apply digit_run_iff.
  - rewrite app_nil_r. by apply digit_run_iff.
Qed.

(** [%f] of a run of digits is a decimal text, wherever the point is. *)
Lemma fmtF_decimal_text (neg : bool) (ds : list ascii) (dp : Z) :
  Forall (λ c, is_digit c = true) ds →
  decimal_text (String.string_of_list_ascii (strconv.fmtF neg ds dp)) = true.
Proof.
  intros Hds. unfold strconv.fmtF.
  set (nd := Z.of_nat (length ds)).
  set (I := if bool_decide (0 < dp)
            then take (Z.to_nat (Z.min nd dp)) ds
                 ++ replicate (Z.to_nat (dp - Z.min nd dp)) "0"%char
            else ["0"%char]).
  set (G := (λ i, let j := dp + i in
                  if bool_decide (0 ≤ j < nd)
                  then default "0"%char (ds !! Z.to_nat j)
                  else "0"%char) <$> seqZ 0 (Z.max (nd - dp) 0)).
  assert (digit_run I = true) as HI.
  { apply digit_run_iff. subst I. case_bool_decide as Hdp;
      [|by repeat constructor]. split.
    - intros Hnil%(f_equal length). revert Hnil.
      rewrite length_app, length_take, length_replicate. subst nd.
      cbn [length]. lia.
    - apply Forall_app. split;
        [by apply Forall_take|by apply Forall_replicate]. }
  case_bool_decide as Hprec.
  - apply (decimal_text_of_parts neg I (Some G)); [done|].
    intros ? [= <-]. apply digit_run_iff. subst G. split.
    + intros Hnil%(f_equal length). revert Hnil.
      rewrite length_fmap, length_seqZ. cbn [length]. lia.
    + apply Forall_fmap, Forall_forall. intros i _. unfold compose.
      cbv beta zeta.
      case_bool_decide; [|done].
      destruct (ds !! Z.to_nat (dp + i)) as [c|] eqn:Hc; [|done].
      cbn [default]. exact (Forall_lookup_1 _ ds _ c Hds Hc).
  - by apply (decimal_text_of_parts neg I None).
Qed.

(** [strconv.FormatFloat(x, 'f', -1, 64)] on the bits of some floats: 0,
    -0, 1, -2.5, 0.1, 12.34, 100, 1e23, a third, a millionth and
    123456789.125, then NaN and the two infinities. *)
Lemma FormatFloat_f_examples :
  strconv.FormatFloat_f <$>
    [ 0; 9223372036854775808; 4607182418800017408; 13836183955189006336;
      4591870180066957722; 4623136420479977390; 4636737291354636288;
      4950912855330343670; 4599676419421066581; 4517329193108106637;
      4728057454355546112; 9221120237041090560; 9218868437227405312;
      18442240474082181120 ]
  = [ "0"; "-0"; "1"; "-2.5"; "0.1"; "12.34"; "100";
      "100000000000000000000000"; "0.3333333333333333"; "0.000001";
      "123456789.125"; "NaN"; "+Inf"; "-Inf" ]%string.
Proof. by vm_compute. Qed.

Lemma FormatFloat_f_finite (x : float64) :
  strconv.is_finite x = true → decimal_text (strconv.FormatFloat_f x) = true.
Proof.
  unfold strconv.is_finite, strconv.FormatFloat_f.
  intros Hfin%negb_true_iff%bool_decide_eq_false. cbv zeta.
  rewrite (bool_decide_eq_false_2 _ Hfin).
  case_bool_decide; [by apply fmtF_decimal_text|].
  destruct (strconv.shortest _ _ _) as [Dg k].
  apply fmtF_decimal_text, strip_zeros_digits, pretty_N_digits.
Qed.

Lemma FormatFloat_f_not_finite (x : float64) :
  strconv.is_finite x = false →
  (strconv.FormatFloat_f x = "NaN" ∨ strconv.FormatFloat_f x = "+Inf"
   ∨ strconv.FormatFloat_f x = "-Inf")
  ∧ decimal_text (strconv.FormatFloat_f x) = false.
Proof.
  unfold strconv.is_finite, strconv.FormatFloat_f.
  intros Hinf%negb_false_iff%bool_decide_eq_true. cbv zeta.
  rewrite (bool_decide_eq_true_2 _ Hinf).
  case_bool_decide; [by split; [left|]|].
  destruct (strconv.sign_bit x); by split; [right; (by left) || (by right)|].
Qed.
End decimal_text_properties.

Section cache_properties.
Context {D : Decls} {Sv : Services} {Rg : sessions.Registry}.
Import multiplayer.

(** A Redis command that meets no fault and that the server accepts
    changes the store and is recorded as a success. *)
Lemma db_Redis_success (c : db.RedisCmd) (w : World) r' :
  redis_fault c (trace w) = None →
  redis_model.apply c (redis w) = inr r' →
  db_Redis c w =
  (None, {| redis := r'; now := now w; trace := trace w ++ [EvRedis c None] |}).
Proof. intros Hf Ha. unfold db_Redis. run. by rewrite Hf, Ha. Qed.

(** A Redis command that meets a fault returns it and changes nothing. *)
Lemma db_Redis_failure (c : db.RedisCmd) (w : World) e :
  redis_fault c (trace w) = Some e →
  db_Redis c w =
  (Some e, {| redis := redis w; now := now w;
              trace := trace w ++ [EvRedis c (Some e)] |}).
Proof. intros Hf. unfold db_Redis. run. by rewrite Hf. Qed.

Lemma hset_fields_absent (ps : list (string * string)) :
  ∀ (h : gmap string string) f,
    f ∉ ps.*1 → foldl (λ h fv, <[fv.1 := fv.2]> h) h ps !! f = h !! f.
Proof.
  induction ps as [|[f' v'] ps IH]; intros h f Hf; [done|].
  simpl in *. apply not_elem_of_cons in Hf as [Hne Hf].
  rewrite IH by done. by apply lookup_insert_ne.
Qed.

Lemma hset_fields_present (ps : list (string * string)) :
  ∀ (h : gmap string string) f v,
    NoDup ps.*1 → (f, v) ∈ ps →
    foldl (λ h fv, <[fv.1 := fv.2]> h) h ps !! f = Some v.
Proof.
  induction ps as [|[f' v'] ps IH]; intros h f v Hnd Hin.
  - by apply elem_of_nil in Hin.
  - simpl in *. apply NoDup_cons in Hnd as [Hf' Hnd].
    apply elem_of_cons in Hin as [Heq|Hin].
    + simplify_eq. rewrite hset_fields_absent by done. apply lookup_insert_eq.
    + by apply IH.
Qed.

(** After HSET every field of the command reads back under the key. *)
Lemma hset_hget key (ps : list (string * string)) r f v :
  NoDup ps.*1 → (f, v) ∈ ps →
  hget (redis_model.hset key ps r) key f = Some v.
Proof.
  intros Hnd Hin. unfold hget, redis_model.hset.
  rewrite lookup_insert_eq. simpl. by apply hset_fields_present.
Qed.

(** C7, as the code has it.  [cacheMatchSettings] sends one HSET, on the
    settings key of the room, whose arguments pair up into the sixteen
    published fields: name, has-password as 0/1, max-players, map checksum,
    map id, mapset id, map display name, host user id, ruleset,
    host-rotation as 0/1, map game-mode, difficulty rating, in-progress as
    0/1, global modifiers, free-mod type and tournament-mode as 0/1, each
    taken from the room's current data.  The eight integer fields, the
    global modifiers among them, are decimal texts that read back as the
    integers of the room.  The difficulty rating is a decimal text (digits
    with at most one point, after an optional minus sign) when the rating
    is a number; when it is not, the field holds one of the names NaN,
    +Inf and -Inf, which is no decimal text.  When the command goes
    through, every one of the sixteen fields reads back from the record
    under that key, nothing is logged and no other key changes; when it
    fails the failure is logged. *)
Theorem cacheMatchSettings_writes_the_whole_record (game : Game) (w : World) :
  let d := Data game in
  let key := getMatchSettingsRedisKey game in
  let cmd := db.HSet key (matchSettings game) in
  let w' := (cacheMatchSettings game w).2 in
  let ev := events_of (cacheMatchSettings game) w in
  let rating := strconv.FormatFloat_f (objects.MapDifficultyRating d) in
  let fields :=
    [ ("n", objects.Name d);
      ("pw", bit (objects.HasPassword d));
      ("mp", strconv.Itoa (objects.MaxPlayers d));
      ("md5", objects.MapMD5 d);
      ("mid", strconv.Itoa (objects.MapId d));
      ("msid", strconv.Itoa (objects.MapsetId d));
      ("map", objects.MapName d);
      ("host", strconv.Itoa (objects.HostId d));
      ("r", strconv.Itoa (objects.Ruleset d));
      ("hr", bit (objects.IsHostRotation d));
      ("gm", strconv.Itoa (objects.MapGameMode d));
      ("d", rating);
      ("inp", bit (objects.InProgress d));
      ("m", strconv.FormatInt10 (objects.GlobalModifiers d));
      ("fm", strconv.Itoa (objects.FreeModType d));
      ("trn", bit (objects.IsTournamentMode d)) ]%string in
  let integers :=
    [ ("mp", objects.MaxPlayers d);
      ("mid", objects.MapId d);
      ("msid", objects.MapsetId d);
      ("host", objects.HostId d);
      ("r", objects.Ruleset d);
      ("gm", objects.MapGameMode d);
      ("m", objects.GlobalModifiers d);
      ("fm", objects.FreeModType d) ]%string in
  redis_calls ev = [cmd]
  ∧ redis_model.pair_up (matchSettings game) = Some fields
  ∧ (∀ f z, (f, z) ∈ integers →
       ∃ v, (f, v) ∈ fields ∧ parse_decimal v = Some z)
  ∧ (strconv.is_finite (objects.MapDifficultyRating d) = true →
       decimal_text rating = true)
  ∧ (strconv.is_finite (objects.MapDifficultyRating d) = false →
       (rating = "NaN" ∨ rating = "+Inf" ∨ rating = "-Inf")%string
       ∧ decimal_text rating = false)
  ∧ (redis_fault cmd (trace w) = None →
       (∀ f v, (f, v) ∈ fields → hget (redis w') key f = Some v)
       ∧ logged ev = []
       ∧ (∀ k, k ≠ key → redis w' !! k = redis w !! k))
  ∧ (∀ e, redis_fault cmd (trace w) = Some e →
       logged ev =
         ["Failed to cache match settings in redis - " +:+ e +:+ LF]).
Proof.
  cbv zeta.
  set (d := Data game). set (key := getMatchSettingsRedisKey game).
  set (fields := (("n"%string, objects.Name d) :: _ : list (string * string))).
  assert (Hpair : redis_model.pair_up (matchSettings game) = Some fields).
  { unfold matchSettings, fields, bit. fold d. simpl.
    by destruct (objects.HasPassword d), (objects.IsHostRotation d),
      (objects.InProgress d), (objects.IsTournamentMode d). }
  assert (Hnd : NoDup fields.*1).
  { subst fields. simpl. apply (bool_decide_unpack _). by vm_compute. }
  assert (Hint : ∀ f z,
            (f, z) ∈ [ ("mp", objects.MaxPlayers d);
                       ("mid", objects.MapId d);
                       ("msid", objects.MapsetId d);
                       ("host", objects.HostId d);
                       ("r", objects.Ruleset d);
                       ("gm", objects.MapGameMode d);
                       ("m", objects.GlobalModifiers d);
                       ("fm", objects.FreeModType d) ]%string →
            ∃ v, (f, v) ∈ fields ∧ parse_decimal v = Some z).
  { intros f z Hin. exists (pretty z).
    split; [|apply parse_decimal_pretty].
    subst fields. unfold strconv.Itoa, strconv.FormatInt10.
    apply list_elem_of_In in Hin. apply list_elem_of_In.
    cbn [In] in *.
    repeat (destruct Hin as [[= <- <-]|Hin]; [tauto|]). done. }
  unfold cacheMatchSettings, events_of, mbind, M_bind. fold key.
  destruct (redis_fault (db.HSet key (matchSettings game)) (trace w))
    as [e|] eqn:Hfault.
  - rewrite (db_Redis_failure _ _ e) by done. run.
    rewrite <- app_assoc, drop_app_length.
    split_and!; [done | done | done | apply FormatFloat_f_finite
                | apply FormatFloat_f_not_finite | done |].
    intros e' [= <-]. done.
  - rewrite (db_Redis_success _ _ (redis_model.hset key fields (redis w)));
      [|done|unfold redis_model.apply; by rewrite Hpair].
    run. rewrite drop_app_length.
    split_and!; [done | done | done | apply FormatFloat_f_finite
                | apply FormatFloat_f_not_finite | | done].
    intros _. split_and!; [|done|].
    + intros f v Hin. by apply hset_hget.
    + intros k Hk. unfold redis_model.hset. by apply lookup_insert_ne.
Qed.

(** C10.  When no live session exists for the user id, [cachePlayer]
    returns at once: no Redis command is sent, nothing is logged, and the
    world (the cache included) is exactly what it was. *)
Theorem cachePlayer_without_session_does_nothing
    (game : Game) (id : Z) (w : World) :
  sessions.GetUserById id = None →
  cachePlayer game id w = (tt, w)
  ∧ events_of (cachePlayer game id) w = []
  ∧ redis (cachePlayer game id w).2 = redis w.
Proof.
  intros Hnone. unfold events_of, cachePlayer. rewrite Hnone.
  unfold mret, M_ret. simpl. by rewrite drop_all.
Qed.

Lemma Itoa_BoolToInt (b : bool) : strconv.Itoa (utils.BoolToInt b) = bit b.
Proof. by destruct b. Qed.

Lemma bit_is_1 (b : bool) : bit b = "1"%string ↔ b = true.
Proof. by destruct b. Qed.

(** C8, as the code has it.  For a user id with a live session,
    [cachePlayer] sends one HSET on the player's key, which is
    [quaver:server:multiplayer:<roomId>:player:<userId>].  When the
    command goes through, the field [r] of the record under that key is
    the text 1 exactly when the user id is in the room's ready set (and 0
    otherwise), and the field [hm] is 1 exactly when the user id is not
    in the room's without-map set; in particular, with player 7 of room
    42 in the ready set, field [r] of key
    [quaver:server:multiplayer:42:player:7] is 1. *)
Theorem cachePlayer_ready_and_has_map_flags
    (game : Game) (id : Z) (user : sessions.User) (w : World) :
  sessions.GetUserById id = Some user →
  let d := Data game in
  let key := getPlayerRedisKey game id in
  let cmd := db.HSet key (playerRecord game id user) in
  let w' := (cachePlayer game id w).2 in
  redis_calls (events_of (cachePlayer game id) w) = [cmd]
  ∧ key = ("quaver:server:multiplayer:" +:+ strconv.Itoa (objects.Id d)
             +:+ ":player:" +:+ strconv.Itoa id)%string
  ∧ (redis_fault cmd (trace w) = None →
       hget (redis w') key "r" =
         Some (bit (bool_decide (id ∈ objects.PlayersReady d)))
       ∧ hget (redis w') key "hm" =
         Some (bit (bool_decide (id ∉ objects.PlayersWithoutMap d)))
       ∧ (hget (redis w') key "r" = Some "1"%string
          ↔ id ∈ objects.PlayersReady d)
       ∧ (hget (redis w') key "hm" = Some "1"%string
          ↔ id ∉ objects.PlayersWithoutMap d)
       ∧ (objects.Id d = 42 → id = 7 → 7 ∈ objects.PlayersReady d →
          hget (redis w') "quaver:server:multiplayer:42:player:7" "r"
          = Some "1"%string)).
Proof.
  intros Huser. cbv zeta.
  set (d := Data game). set (key := getPlayerRedisKey game id).
  set (vr := bit (bool_decide (id ∈ objects.PlayersReady d))).
  set (vhm := bit (bool_decide (id ∉ objects.PlayersWithoutMap d))).
  assert (∃ ps, redis_model.pair_up (playerRecord game id user) = Some ps
                ∧ NoDup ps.*1
                ∧ ("r"%string, vr) ∈ ps ∧ ("hm"%string, vhm) ∈ ps)
    as (ps & Hpair & Hnd & Hr & Hhm).
  { eexists. split; [unfold playerRecord; simpl; reflexivity|].
    rewrite !Itoa_BoolToInt. fold d. unfold utils.Includes.
    rewrite <- bool_decide_not. fold vr vhm. split_and!.
    - simpl. apply (bool_decide_unpack _). by vm_compute.
    - apply list_elem_of_In. simpl. tauto.
    - apply list_elem_of_In. simpl. tauto. }
  split_and!.
  - unfold cachePlayer, events_of, mbind, M_bind. rewrite Huser. fold key.
    destruct (redis_fault (db.HSet key (playerRecord game id user)) (trace w))
      as [e|] eqn:Hfault.
    + rewrite (db_Redis_failure _ _ e) by done. run.
      by rewrite <- app_assoc, drop_app_length.
    + rewrite (db_Redis_success _ _ (redis_model.hset key ps (redis w)));
        [|done|unfold redis_model.apply; by rewrite Hpair].
      run. by rewrite drop_app_length.
  - done.
  - intros Hfault.
    assert (Hw : redis (cachePlayer game id w).2
                 = redis_model.hset key ps (redis w)).
    { unfold cachePlayer, mbind, M_bind. rewrite Huser. fold key.
      rewrite (db_Redis_success _ _ (redis_model.hset key ps (redis w)));
        [done|done|unfold redis_model.apply; by rewrite Hpair]. }
    rewrite Hw.
    assert (Hgr : hget (redis_model.hset key ps (redis w)) key "r" = Some vr)
      by by apply hset_hget.
    assert (Hghm : hget (redis_model.hset key ps (redis w)) key "hm" = Some vhm)
      by by apply hset_hget.
    assert (Hr1 : hget (redis_model.hset key ps (redis w)) key "r"
                  = Some "1"%string ↔ id ∈ objects.PlayersReady d).
    { rewrite Hgr. subst vr. split.
      - intros [= Hb]. apply bit_is_1 in Hb. by apply bool_decide_eq_true in Hb.
      - intros Hin. by rewrite bool_decide_eq_true_2. }
    split_and!; [done | done | done | |].
    + rewrite Hghm. subst vhm. split.
      * intros [= Hb]. apply bit_is_1 in Hb. by apply bool_decide_eq_true in Hb.
      * intros Hin. by rewrite bool_decide_eq_true_2.
    + intros Hroom -> Hready.
      assert (Hkey : key = "quaver:server:multiplayer:42:player:7"%string).
      { subst key. unfold getPlayerRedisKey. fold d. by rewrite Hroom. }
      rewrite <- Hkey. by apply Hr1.
Qed.

(** C9.  [deleteCachedPlayer] sends one DEL on the player's key.  When
    the command goes through, nothing is stored under that key any more
    (a lookup of the key, and of any field under it, finds nothing), the
    other keys are untouched and nothing is logged; when it fails, the
    failure is logged, the cache is as before, and in both cases the
    function simply returns. *)
Theorem deleteCachedPlayer_removes_the_record
    (game : Game) (userId : Z) (w : World) :
  let key := getPlayerRedisKey game userId in
  let cmd := db.Del [key] in
  let out := deleteCachedPlayer game userId w in
  let ev := events_of (deleteCachedPlayer game userId) w in
  out.1 = tt
  ∧ redis_calls ev = [cmd]
  ∧ (redis_fault cmd (trace w) = None →
       redis out.2 !! key = None
       ∧ (∀ f, hget (redis out.2) key f = None)
       ∧ (∀ k, k ≠ key → redis out.2 !! k = redis w !! k)
       ∧ logged ev = [])
  ∧ (∀ e, redis_fault cmd (trace w) = Some e →
       redis out.2 = redis w
       ∧ ev = [EvRedis cmd (Some e);
               EvLog ("Failed to remove multiplayer player  in redis - "
                      +:+ e +:+ LF)]).
Proof.
  cbv zeta. set (key := getPlayerRedisKey game userId).
  unfold deleteCachedPlayer, events_of, mbind, M_bind. fold key.
  destruct (redis_fault (db.Del [key]) (trace w)) as [e|] eqn:Hfault.
  - rewrite (db_Redis_failure _ _ e) by done. run.
    rewrite <- app_assoc, drop_app_length.
    split_and!; [done | done | done |].
    intros e' [= <-]. done.
  - rewrite (db_Redis_success _ _ (delete key (redis w))) by done.
    run. rewrite drop_app_length.
    split_and!; [done | done | | done].
    intros _. split_and!.
    + apply lookup_delete_eq.
    + intros f. unfold hget. by rewrite lookup_delete_eq.
    + intros k Hk. by apply lookup_delete_ne.
    + done.
Qed.

(** C5, as the code has it.  Every key is the published colon-delimited
    key behind the prefix [quaver:]: the session key is
    [quaver:server:session:<token>], the user-status key is
    [quaver:server:user_status:<userId>], the room-settings key is
    [quaver:server:multiplayer:<roomId>] and the per-player key is
    [quaver:server:multiplayer:<roomId>:player:<userId>], ids being in
    decimal; none of them is the key without the prefix. *)
Theorem redis_keys_carry_the_quaver_prefix
    (u : sessions.User) (game : Game) (id : Z) :
  let room := strconv.Itoa (objects.Id (Data game)) in
  let user := strconv.Itoa (db.Id (sessions.Info u)) in
  (sessions.getRedisSessionKey u
     = "quaver:" +:+ "server:session:" +:+ sessions.token u
   ∧ sessions.getRedisClientStatusKey u
     = "quaver:" +:+ "server:user_status:" +:+ user
   ∧ getMatchSettingsRedisKey game
     = "quaver:" +:+ "server:multiplayer:" +:+ room
   ∧ getPlayerRedisKey game id
     = "quaver:" +:+ "server:multiplayer:" +:+ room +:+ ":player:"
         +:+ strconv.Itoa id)%string
  ∧ (sessions.getRedisSessionKey u ≠ "server:session:" +:+ sessions.token u
     ∧ sessions.getRedisClientStatusKey u ≠ "server:user_status:" +:+ user
     ∧ getMatchSettingsRedisKey game ≠ "server:multiplayer:" +:+ room
     ∧ getPlayerRedisKey game id
       ≠ "server:multiplayer:" +:+ room +:+ ":player:" +:+ strconv.Itoa id)%string.
Proof.
  cbv zeta. split; [by split_and!|].
  unfold sessions.getRedisSessionKey, sessions.getRedisClientStatusKey,
    getMatchSettingsRedisKey, getPlayerRedisKey.
  split_and!; simpl; discriminate.
Qed.
End cache_properties.

(** * The properties on concrete runs *)

Section concrete_runs.
Import scenario.

(** C1 as written fails: the stored map is not left intact by a failing
    [SetStats].  With the
    database failing at mode 2, the call returns the failure and mode 1,
    absent before, holds its fresh row afterwards. *)
Lemma SetStats_failure_keeps_earlier_modes :
  let out := sessions.SetStats (Sv := db_fails_at_2) A boot in
  row_of (Sv := db_fails_at_2) A 2 = inl "sql: connection refused"%string
  ∧ out.1.1 = Some "sql: connection refused"%string
  ∧ sessions.stats A !! 1 = None
  ∧ sessions.stats out.1.2 !! 1 = Some 101
  ∧ sessions.stats out.1.2 ≠ sessions.stats A.
Proof.
  cbv zeta. split_and!; try (vm_compute; reflexivity).
  intros Heq. apply (f_equal (λ m : gmap Z Z, m !! 1)) in Heq.
  vm_compute in Heq. discriminate Heq.
Qed.

(** C1 as amended, on a database failing at mode 2 and on a healthy one:
    in the first run mode 1 held no row before, so the map has changed. *)
Lemma SetStats_on_failing_and_healthy_database :
  (let out := sessions.SetStats (Sv := db_fails_at_2) A boot in
   out.1.1 = Some "sql: connection refused"%string
   ∧ sessions.stats out.1.2 !! 1 = Some 101
   ∧ sessions.stats out.1.2 !! 2 = None
   ∧ sessions.stats out.1.2 ≠ sessions.stats A)
  ∧ (let out := sessions.SetStats (Sv := healthy) A boot in
     out.1.1 = None
     ∧ sessions.stats out.1.2 !! 1 = Some 101
     ∧ sessions.stats out.1.2 !! 2 = Some 102).
Proof.
  cbv zeta. split.
  - destruct (proj1 (SetStats_stores_rows_up_to_first_failure
                       (Sv := db_fails_at_2) A boot)
                2 "sql: connection refused"%string)
      as (Hr & Hlo & Hhi & Hiff & _).
    + simpl. lia.
    + reflexivity.
    + intros m Hm. exists 101. assert (m = 1) as -> by lia. reflexivity.
    + split_and!; [exact Hr | | |].
      * destruct (Hlo 1) as (s & Hs & Hl); [lia|].
        vm_compute in Hs. injection Hs as <-. exact Hl.
      * etrans; [apply Hhi; lia | reflexivity].
      * intros Heq. destruct (proj1 Hiff Heq 1) as (s & _ & Hl); [lia|].
        vm_compute in Hl. discriminate Hl.
  - destruct (proj2 (SetStats_stores_rows_up_to_first_failure
                       (Sv := healthy) A boot))
      as (Hr & Hlo & _).
    + intros m Hm. exists (100 + m). reflexivity.
    + split_and!; [exact Hr | |].
      * destruct (Hlo 1) as (s & Hs & Hl); [simpl; lia|].
        vm_compute in Hs. injection Hs as <-. exact Hl.
      * destruct (Hlo 2) as (s & Hs & Hl); [simpl; lia|].
        vm_compute in Hs. injection Hs as <-. exact Hl.
Defined.

(** C2 as written fails: two recipients, two serializations. *)
Lemma SendPacketToUsers_serializes_twice_for_two :
  let ev := events_of
              (sessions.SendPacketToUsers (Sv := healthy) "ping"%string [A; B])
              boot in
  marshals ev = [inr "ping"; inr "ping"]%string
  ∧ length (marshals ev) ≠ 1%nat.
Proof. cbv zeta. split; [vm_compute; reflexivity | vm_compute; discriminate]. Qed.

(** C2 as amended: both recipients are handed the frame of their own
    serialization. *)
Lemma SendPacketToUsers_hands_each_its_frame :
  writes (events_of
            (sessions.SendPacketToUsers (Sv := healthy) "ping"%string [A; B])
            boot)
  = [(1, "ping"); (2, "ping")]%string.
Proof.
  pose proof (SendPacketToUsers_serializes_for_each_recipient
                (Sv := healthy) "ping"%string [A; B] boot) as H.
  cbv zeta in H. destruct H as (_ & _ & H).
  apply (H "ping"%string). reflexivity.
Defined.

(** C3 as written fails: with a payload that cannot be serialized, the
    serialization fails for A and no write is attempted for B (nor for
    anyone). *)
Lemma SendPacketToUsers_unserializable_reaches_nobody :
  let ev := events_of
              (sessions.SendPacketToUsers (Sv := unserializable)
                 "ping"%string [A; B])
              boot in
  marshals ev = [inl "json: unsupported type"; inl "json: unsupported type"]%string
  ∧ writes ev = []
  ∧ ¬ (∃ j r, EvWrite (sessions.Conn B) j r ∈ ev).
Proof.
  cbv zeta. split_and!; try (vm_compute; reflexivity).
  intros (j & r & Hin).
  assert ((sessions.Conn B, j)
          ∈ writes (events_of
                      (sessions.SendPacketToUsers (Sv := unserializable)
                         "ping"%string [A; B]) boot)) as Hw.
  { apply list_elem_of_omap. by exists (EvWrite (sessions.Conn B) j r). }
  vm_compute in Hw. by apply elem_of_nil in Hw.
Qed.

(** C3 as amended: the write on A's connection fails, and B still receives
    the frame. *)
Lemma SendPacketToUsers_A_fails_B_receives :
  let ev := events_of
              (sessions.SendPacketToUsers (Sv := conn1_broken)
                 "ping"%string [A; B])
              boot in
  EvWrite 1 "ping" (Some "write: broken pipe"%string) ∈ ev
  ∧ (2, "ping"%string) ∈ delivered ev.
Proof.
  cbv zeta. split.
  - apply list_elem_of_In. vm_compute. tauto.
  - pose proof (SendPacketToUsers_isolates_recipients
                  (Sv := conn1_broken) "ping"%string [A; B] boot) as H.
    cbv zeta in H. destruct H as (_ & _ & _ & _ & _ & _ & _ & _ & _ & H).
    apply (H B "ping"%string).
    + apply list_elem_of_further, list_elem_of_here.
    + reflexivity.
    + reflexivity.
Defined.

(** C4 on a run: at the boundary (expiry equal to the clock) A is not
    muted; one millisecond earlier A is. *)
Lemma IsMuted_at_the_boundary :
  (sessions.IsMuted A boot).1 = false
  ∧ (sessions.IsMuted A {| redis := ∅; now := 4999; trace := [] |}).1 = true.
Proof.
  split.
  - destruct (IsMuted_iff_expiry_after_now A boot) as (_ & H & _).
    apply (H ∅ []).
  - apply (proj1 (IsMuted_iff_expiry_after_now A
                    {| redis := ∅; now := 4999; trace := [] |})).
    simpl. lia.
Defined.

(** C5 as written fails: the keys of a session with token abc, of user 7,
    of room 42 and of player 7 in room 42 are not the keys without the
    prefix. *)
Lemma redis_keys_differ_from_the_bare_scheme :
  (sessions.getRedisSessionKey A = "quaver:server:session:abc"
   ∧ sessions.getRedisSessionKey A ≠ "server:session:abc"
   ∧ sessions.getRedisClientStatusKey B = "quaver:server:user_status:7"
   ∧ sessions.getRedisClientStatusKey B ≠ "server:user_status:7"
   ∧ multiplayer.getMatchSettingsRedisKey room42 = "quaver:server:multiplayer:42"
   ∧ multiplayer.getMatchSettingsRedisKey room42 ≠ "server:multiplayer:42"
   ∧ multiplayer.getPlayerRedisKey room42 7
     = "quaver:server:multiplayer:42:player:7"
   ∧ multiplayer.getPlayerRedisKey room42 7
     ≠ "server:multiplayer:42:player:7")%string.
Proof. split_and!; vm_compute; (reflexivity || discriminate). Qed.

(** C6 on a run: the status write fails, the failure is logged after the
    unlock and the session holds the new status all the same. *)
Lemma SetClientStatus_with_failing_cache :
  let out := sessions.SetClientStatus (Rg := status_write_fails) A playing boot in
  (sessions.GetClientStatus out.1 out.2).1 = playing
  ∧ events_of (sessions.SetClientStatus (Rg := status_write_fails) A playing) boot
    = [EvLock 1; EvUnlock 1;
       EvRedisStatus "quaver:server:user_status:1" (Some "redis: timeout");
       EvLog "redis: timeout"]%string.
Proof.
  pose proof (SetClientStatus_stands_whatever_the_cache_does
                (Rg := status_write_fails) A playing boot) as H.
  cbv zeta in *. destruct H as (_ & _ & Hget & Hev & _).
  split; [exact Hget | exact Hev].
Defined.

(** C7 as written fails: a room whose rating is NaN is cached with the
    field [d] holding the name NaN, which is no decimal text. *)
Lemma cacheMatchSettings_of_a_rating_that_is_no_number :
  let game := float_scenario.room42_nan in
  let w' := (multiplayer.cacheMatchSettings (Sv := healthy) game boot).2 in
  (strconv.is_finite (objects.MapDifficultyRating (multiplayer.Data game))
   = false
   ∧ hget (redis w') "quaver:server:multiplayer:42" "d" = Some "NaN"
   ∧ decimal_text "NaN" = false
   ∧ hget (redis w') "quaver:server:multiplayer:42" "m" = Some "0")%string.
Proof. cbv zeta. split_and!; by vm_compute. Qed.

(** C7 as amended on a run: room 42, whose rating is the float 12.34, as
    cached by [cacheMatchSettings]; all sixteen fields, and the integers
    that the integer fields denote. *)
Lemma cacheMatchSettings_room42 :
  let w' := (multiplayer.cacheMatchSettings (Sv := healthy) room42 boot).2 in
  let key := "quaver:server:multiplayer:42"%string in
  (hget (redis w') key "n" = Some "lobby"
   ∧ hget (redis w') key "pw" = Some "0"
   ∧ hget (redis w') key "mp" = Some "8"
   ∧ hget (redis w') key "md5" = Some "d41d8"
   ∧ hget (redis w') key "mid" = Some "1234"
   ∧ hget (redis w') key "msid" = Some "56"
   ∧ hget (redis w') key "map" = Some "Artist - Title"
   ∧ hget (redis w') key "host" = Some "7"
   ∧ hget (redis w') key "r" = Some "0"
   ∧ hget (redis w') key "hr" = Some "1"
   ∧ hget (redis w') key "gm" = Some "1"
   ∧ hget (redis w') key "d" = Some "12.34"
   ∧ hget (redis w') key "inp" = Some "0"
   ∧ hget (redis w') key "m" = Some "0"
   ∧ hget (redis w') key "fm" = Some "0"
   ∧ hget (redis w') key "trn" = Some "0")%string
  ∧ parse_decimal "1234" = Some 1234
  ∧ parse_decimal "0" = Some 0
  ∧ decimal_text "12.34" = true.
Proof.
  pose proof (cacheMatchSettings_writes_the_whole_record
                (Sv := healthy) room42 boot) as H.
  cbv zeta in *. destruct H as (_ & _ & Hint & Hfin & _ & H & _).
  destruct (H eq_refl) as (Hget & _).
  split_and!;
    [apply Hget; apply list_elem_of_In; simpl; tauto ..
    | destruct (Hint "mid"%string 1234) as (v & Hv & Hparse);
        [apply list_elem_of_In; simpl; tauto|];
      apply list_elem_of_In in Hv; cbn [In] in Hv;
      repeat (destruct Hv as [[= <-]|Hv]; [exact Hparse|]);
      repeat (destruct Hv as [[=]|Hv]); done
    | destruct (Hint "m"%string 0) as (v & Hv & Hparse);
        [apply list_elem_of_In; simpl; tauto|];
      apply list_elem_of_In in Hv; cbn [In] in Hv;
      repeat (destruct Hv as [[=]|Hv]
              || (destruct Hv as [[= <-]|Hv]; [exact Hparse|])); done
    | exact (Hfin eq_refl) ].
Defined.

(** C8 as written fails: player 7 of room 42 is ready, the record is
    written under the prefixed key, and the key without the prefix holds
    nothing. *)
Lemma cachePlayer_leaves_the_bare_key_absent :
  let w' := (multiplayer.cachePlayer (Sv := healthy) (Rg := only_B)
               room42 7 boot).2 in
  (7 ∈ objects.PlayersReady (multiplayer.Data room42)
   ∧ redis w' !! "server:multiplayer:42:player:7" = None
   ∧ hget (redis w') "server:multiplayer:42:player:7" "r" ≠ Some "1"
   ∧ hget (redis w') "quaver:server:multiplayer:42:player:7" "r" = Some "1")%string.
Proof.
  cbv zeta. split_and!.
  - apply list_elem_of_here.
  - vm_compute. reflexivity.
  - vm_compute. discriminate.
  - vm_compute. reflexivity.
Qed.

(** C8 as amended, for player 7 of room 42. *)
Lemma cachePlayer_room42_player7 :
  let w' := (multiplayer.cachePlayer (Sv := healthy) (Rg := only_B)
               room42 7 boot).2 in
  (hget (redis w') "quaver:server:multiplayer:42:player:7" "r" = Some "1"
   ∧ hget (redis w') "quaver:server:multiplayer:42:player:7" "hm" = Some "1")%string.
Proof.
  pose proof (cachePlayer_ready_and_has_map_flags
                (Sv := healthy) (Rg := only_B) room42 7 B boot eq_refl) as H.
  cbv zeta in *. destruct H as (_ & _ & H).
  destruct (H eq_refl) as (_ & _ & Hr & Hhm & _).
  split.
  - apply Hr. apply list_elem_of_here.
  - apply Hhm. apply not_elem_of_nil.
Defined.

(** C9 on a run: player 7 is cached and then deleted, and the key is
    absent afterwards. *)
Lemma deleteCachedPlayer_room42_player7 :
  let w1 := (multiplayer.cachePlayer (Sv := healthy) (Rg := only_B)
               room42 7 boot).2 in
  let w2 := (multiplayer.deleteCachedPlayer (Sv := healthy) room42 7 w1).2 in
  (is_Some (redis w1 !! "quaver:server:multiplayer:42:player:7")
   ∧ redis w2 !! "quaver:server:multiplayer:42:player:7" = None)%string.
Proof.
  cbv zeta. split.
  - vm_compute. eauto.
  - pose proof (deleteCachedPlayer_removes_the_record (Sv := healthy) room42 7
                  (multiplayer.cachePlayer (Sv := healthy) (Rg := only_B)
                     room42 7 boot).2) as H.
    cbv zeta in H. destruct H as (_ & _ & H & _).
    destruct (H eq_refl) as (Hgone & _). exact Hgone.
Defined.

(** With Redis down the delete is logged and the function returns. *)
Lemma deleteCachedPlayer_with_redis_down :
  logged (events_of (multiplayer.deleteCachedPlayer (Sv := redis_down) room42 7) boot)
  = [ "Failed to remove multiplayer player  in redis - "
      +:+ "dial tcp: connection refused" +:+ LF ]%string.
Proof. vm_compute. reflexivity. Qed.

(** C10 on a run: user 1 has no live session, nothing is written for it. *)
Lemma cachePlayer_offline_user :
  multiplayer.cachePlayer (Sv := healthy) (Rg := only_B) room42 1 boot = (tt, boot)
  ∧ redis (multiplayer.cachePlayer (Sv := healthy) (Rg := only_B) room42 1 boot).2 = ∅.
Proof.
  destruct (cachePlayer_without_session_does_nothing
              (Sv := healthy) (Rg := only_B) room42 1 boot eq_refl)
    as (Hrun & _ & Hredis).
  split; [exact Hrun | exact Hredis].
Defined.
End concrete_runs.

(** * Further properties of the session object *)

Section more_session_properties.
Context {D : Decls} {Sv : Services} {Rg : sessions.Registry}.
Import sessions.

(** The loop of [SetStats] asks the database for the modes from [i] on, in
    order, up to and including the mode where it stops, and touches
    neither the cache nor the clock. *)
Lemma SetStats_loop_trace (n : nat) :
  ∀ (i : Z) (u : User) (w : World) (k : Z),
    i ≤ k ≤ i + Z.of_nat n →
    (∀ m, i ≤ m < k → ∃ s, row_of u m = inr s) →
    (k < i + Z.of_nat n → ∃ e, row_of u k = inl e) →
    let w' := (SetStats_loop n i u w).2 in
    trace w' =
      trace w ++ (EvGetUserStats (db.Id (Info u)) (db.Country (Info u))
                    <$> seqZ i (if bool_decide (k < i + Z.of_nat n)
                                then k - i + 1 else Z.of_nat n))
    ∧ redis w' = redis w ∧ now w' = now w.
Proof.
  induction n as [|n IH]; intros i u w k Hk Hbelow Hstop.
  - simpl. rewrite bool_decide_eq_false_2 by lia. simpl.
    by rewrite app_nil_r.
  - cbn [SetStats_loop]. unfold db_GetUserStats. run.
    fold (row_of u i).
    destruct (decide (k = i)) as [->|Hne].
    + destruct Hstop as [e He]; [lia|].
      rewrite He. simpl. rewrite bool_decide_eq_true_2 by lia.
      by replace (i - i + 1) with 1 by lia.
    + destruct (Hbelow i) as [s Hs]; [lia|].
      rewrite Hs.
      set (u1 := store_stats u i s).
      set (w1 := {| redis := _; now := _; trace := _ |}).
      assert (Hrow : ∀ m, row_of u1 m = row_of u m) by done.
      destruct (IH (i + 1) u1 w1 k) as (Htr & Hre & Hno).
      * lia.
      * intros m Hm. rewrite Hrow. apply Hbelow. lia.
      * intros Hlt. rewrite Hrow. apply Hstop. lia.
      * split_and!; [|done|done].
        rewrite Htr. subst w1 u1. simpl. rewrite <- app_assoc. f_equal.
        simpl.
        destruct (decide (k < i + Z.of_nat (S n))) as [Hlt|Hge].
        -- rewrite !bool_decide_eq_true_2 by lia.
           rewrite (seqZ_cons i) by lia. simpl.
           replace (Z.succ i) with (i + 1) by lia.
           by replace (Z.pred (k - i + 1)) with (k - (i + 1) + 1) by lia.
        -- rewrite !bool_decide_eq_false_2 by lia.
           rewrite (seqZ_cons i) by lia. simpl.
           replace (Z.succ i) with (i + 1) by lia.
           by replace (Z.pred (Z.of_nat (S n))) with (Z.of_nat n) by lia.
Qed.

(** Whatever the database answers, the loop of [SetStats] changes nothing
    of the session but its statistics, and it only adds or replaces
    entries there. *)
Lemma SetStats_loop_frame (n : nat) :
  ∀ (i : Z) (u : User) (w : World),
    let u' := (SetStats_loop n i u w).1.2 in
    Conn u' = Conn u ∧ token u' = token u ∧ Info u' = Info u
    ∧ mutex u' = mutex u ∧ status u' = status u
    ∧ lastPingTimestamp u' = lastPingTimestamp u
    ∧ lastPongTimestamp u' = lastPongTimestamp u
    ∧ lastDetectedProcesses u' = lastDetectedProcesses u
    ∧ dom (stats u) ⊆ dom (stats u').
Proof.
  induction n as [|n IH]; intros i u w; [done|].
  cbn [SetStats_loop]. unfold db_GetUserStats. run.
  destruct (userstats_row _ _ i) as [e|s]; [done|].
  specialize (IH (i + 1) (store_stats u i s)
                {| redis := redis w; now := now w;
                   trace := trace w ++ [EvGetUserStats (db.Id (Info u))
                                          (db.Country (Info u)) i] |}).
  simpl in IH. destruct IH as (? & ? & ? & ? & ? & ? & ? & ? & Hdom).
  split_and!; try done.
  etrans; [|exact Hdom]. rewrite dom_insert. set_solver.
Qed.

(** [SetStats] leaves the world in the state its loop left it, followed by
    the unlock. *)
Lemma SetStats_world (u : User) (w : World) :
  let w1 := (SetStats_loop (Z.to_nat (ModeEnumMaxValue - 1)) 1 u
               {| redis := redis w; now := now w;
                  trace := trace w ++ [EvLock (mutex u)] |}).2 in
  (SetStats u w).2 =
  {| redis := redis w1; now := now w1;
     trace := trace w1 ++ [EvUnlock (mutex u)] |}.
Proof.
  unfold SetStats. run.
  by destruct (SetStats_loop _ _ _ _) as [[r u'] w'].
Qed.

(** Every run of the loop has a mode where it stops. *)
Lemma SetStats_loop_has_stop (row : common.Mode → error + UserStats) (n : nat) :
  ∀ i : Z, ∃ k, i ≤ k ≤ i + Z.of_nat n
                ∧ (∀ m, i ≤ m < k → ∃ s, row m = inr s)
                ∧ (k < i + Z.of_nat n → ∃ e, row k = inl e).
Proof.
  induction n as [|n IH]; intros i.
  - exists i. split; [lia|]. split; intros; lia.
  - destruct (row i) as [e|s] eqn:Hi.
    + exists i. split; [lia|]. split; [intros; lia | eauto].
    + destruct (IH (i + 1)) as (k & Hk & Hbelow & Hstop).
      exists k. split; [lia|]. split.
      * intros m Hm. destruct (decide (m = i)) as [->|]; [eauto|].
        apply Hbelow. lia.
      * intros Hlt. apply Hstop. lia.
Qed.

(** X1.  [SetStats] takes the mutex, asks the database for the tracked
    modes in increasing order starting at 1, stops right after the first
    lookup that fails (no later mode is asked for), and releases the mutex
    on the way out whether a lookup failed or not; the database is thus
    called while the mutex is held.  Here [k] is the first failing tracked
    mode, or the end of the enumeration when none fails. *)
Theorem SetStats_asks_in_order_and_always_unlocks
    (u : User) (w : World) (k : Z) :
  1 ≤ k ≤ Z.max 1 ModeEnumMaxValue →
  (∀ m, 1 ≤ m < k → ∃ s, row_of u m = inr s) →
  (k < ModeEnumMaxValue → ∃ e, row_of u k = inl e) →
  events_of (SetStats u) w =
    EvLock (mutex u)
    :: (EvGetUserStats (db.Id (Info u)) (db.Country (Info u))
          <$> seqZ 1 (if bool_decide (k < ModeEnumMaxValue) then k else k - 1))
    ++ [EvUnlock (mutex u)]
  ∧ redis (SetStats u w).2 = redis w
  ∧ now (SetStats u w).2 = now w.
Proof.
  intros Hk Hbelow Hstop. unfold events_of. rewrite SetStats_world. simpl.
  set (n := Z.to_nat (ModeEnumMaxValue - 1)).
  set (w0 := {| redis := _; now := _; trace := _ |}).
  destruct (SetStats_loop_trace n 1 u w0 k) as (Htr & Hre & Hno);
    [lia | done | intros; apply Hstop; lia |].
  rewrite Htr, Hre, Hno. subst w0. simpl. split; [|done].
  rewrite <- !app_assoc, drop_app_length. simpl. do 2 f_equal.
  destruct (decide (k < ModeEnumMaxValue)).
  - rewrite !bool_decide_eq_true_2 by lia.
    by replace (k - 1 + 1) with k by lia.
  - rewrite !bool_decide_eq_false_2 by lia.
    by replace (Z.of_nat n) with (k - 1) by lia.
Qed.

(** X2.  Whatever the database answers, [SetStats] never removes a mode
    from the stored statistics and never stores a mode outside the tracked
    ones: the modes stored afterwards are those stored before, plus
    tracked modes only. *)
Theorem SetStats_only_adds_tracked_modes (u : User) (w : World) :
  let u' := (SetStats u w).1.2 in
  dom (stats u) ⊆ dom (stats u')
  ∧ dom (stats u') ⊆ dom (stats u) ∪ list_to_set tracked_modes.
Proof.
  cbv zeta. rewrite SetStats_is_its_loop.
  set (n := Z.to_nat (ModeEnumMaxValue - 1)).
  set (w0 := {| redis := _; now := _; trace := _ |}).
  split; [apply (SetStats_loop_frame n 1 u w0)|].
  destruct (SetStats_loop_has_stop (row_of u) n 1) as (k & Hk & Hbelow & Hstop).
  destruct (SetStats_loop_stops_at n 1 u w0 k) as (_ & _ & Hlo & Hhi);
    [done..|].
  intros m Hm. apply elem_of_union.
  destruct (decide (1 ≤ m < k)) as [Hin|Hout].
  - right. apply elem_of_list_to_set. unfold tracked_modes.
    apply elem_of_seqZ. lia.
  - left. apply elem_of_dom. apply elem_of_dom in Hm as [x Hx].
    exists x. etrans; [symmetry; exact (Hhi m Hout) | exact Hx].
Qed.

(** X3.  Against an unchanged database, calling [SetStats] a second time
    returns what the first call returned and leaves the statistics as the
    first call left them. *)
Theorem SetStats_twice_is_SetStats_once (u : User) (w : World) :
  let out1 := SetStats u w in
  let out2 := SetStats out1.1.2 out1.2 in
  out2.1.1 = out1.1.1 ∧ stats out2.1.2 = stats out1.1.2.
Proof.
  cbv zeta. rewrite !SetStats_is_its_loop.
  set (n := Z.to_nat (ModeEnumMaxValue - 1)).
  set (w0 := {| redis := _; now := _; trace := _ |}).
  set (u1 := (SetStats_loop n 1 u w0).1.2).
  set (w1 := {| redis := _; now := _; trace := _ |}).
  destruct (SetStats_loop_has_stop (row_of u) n 1) as (k & Hk & Hbelow & Hstop).
  destruct (SetStats_loop_stops_at n 1 u w0 k) as (Hr & HInfo & Hlo & Hhi);
    [done..|]. fold u1 in Hr, HInfo, Hlo, Hhi.
  assert (Hrow : ∀ m, row_of u1 m = row_of u m).
  { intros m. unfold row_of. by rewrite HInfo. }
  destruct (SetStats_loop_stops_at n 1 u1 w1 k) as (Hr2 & _ & Hlo2 & Hhi2).
  { done. }
  { intros m Hm. rewrite Hrow. by apply Hbelow. }
  { intros Hlt. rewrite Hrow. by apply Hstop. }
  split.
  - rewrite Hr2, Hr. by rewrite Hrow.
  - apply map_eq. intros m. destruct (decide (1 ≤ m < k)) as [Hin|Hout].
    + destruct (Hlo m Hin) as (s & Hs & Hl).
      destruct (Hlo2 m Hin) as (s2 & Hs2 & Hl2).
      rewrite Hrow in Hs2. assert (s2 = s) as -> by congruence.
      etrans; [exact Hl2 | symmetry; exact Hl].
    + exact (Hhi2 m Hout).
Qed.

(** X4.  A session made by [NewUser] holds no statistics; when every
    tracked mode has a row, [SetStats] on it returns no failure and the
    modes stored are exactly the tracked ones. *)
Theorem NewUser_then_SetStats_holds_the_tracked_modes
    (conn : net_Conn) (info : db.User) (tok : string) (mu : Mutex) (w : World) :
  (∀ m, 1 ≤ m < ModeEnumMaxValue →
        ∃ s, userstats_row (db.Id info) (db.Country info) m = inr s) →
  let new := user.NewUser conn info tok mu w in
  let out := SetStats new.1 new.2 in
  stats new.1 = ∅
  ∧ out.1.1 = None
  ∧ dom (stats out.1.2) = list_to_set tracked_modes.
Proof.
  intros Hall. cbv zeta. unfold user.NewUser. run.
  set (u := {| Conn := conn |}).
  rewrite SetStats_is_its_loop.
  set (n := Z.to_nat (ModeEnumMaxValue - 1)).
  set (w0 := {| redis := _; now := _; trace := _ |}).
  destruct (SetStats_loop_stops_at n 1 u w0 (1 + Z.of_nat n))
    as (Hr & _ & Hlo & Hhi); [lia | | lia |].
  { intros m Hm. apply Hall. lia. }
  rewrite bool_decide_eq_false_2 in Hr by lia.
  split_and!; [done | done |].
  apply set_eq. intros m.
  rewrite elem_of_dom, elem_of_list_to_set. unfold tracked_modes.
  rewrite elem_of_seqZ. split.
  - intros [x Hx]. destruct (decide (1 ≤ m < 1 + Z.of_nat n)) as [|Hout]; [lia|].
    pose proof (Hhi m Hout) as Hsame. simpl in Hsame.
    assert (Some x = None) as Hno; [|discriminate Hno].
    etrans; [symmetry; exact Hx|]. etrans; [exact Hsame|]. apply lookup_empty.
  - intros Hm. destruct (Hlo m) as (s & _ & Hl); [lia|]. by exists s.
Qed.

(** X5.  None of the methods that write to a session changes who the
    session is: after [SetStats], [SetClientStatus], [SetLastPingTimestamp],
    [SetLastPongTimestamp] and [SetLastDetectedProcesses] the token, the
    user record, the connection and the mutex are the same, and so are the
    two Redis keys of the session and what [SerializeForPacket] yields. *)
Theorem writers_keep_the_identity_of_the_session
    (u : User) (st : objects.ClientStatus) (processes : list string)
    (w w0 : World) :
  let same (u' : User) :=
    token u' = token u ∧ Info u' = Info u ∧ Conn u' = Conn u
    ∧ mutex u' = mutex u
    ∧ getRedisSessionKey u' = getRedisSessionKey u
    ∧ getRedisClientStatusKey u' = getRedisClientStatusKey u
    ∧ (user.SerializeForPacket u' w0).1 = (user.SerializeForPacket u w0).1 in
  same (SetStats u w).1.2
  ∧ same (SetClientStatus u st w).1
  ∧ same (user.SetLastPingTimestamp u w).1
  ∧ same (user.SetLastPongTimestamp u w).1
  ∧ same (user.SetLastDetectedProcesses u processes w).1.
Proof.
  cbv zeta. split_and!; try done.
  all: try (unfold SetClientStatus, addUserClientStatusToRedis; run;
            by destruct (status_write_result _ _)).
  all: rewrite SetStats_is_its_loop;
    destruct (SetStats_loop_frame (Z.to_nat (ModeEnumMaxValue - 1)) 1 u
                {| redis := redis w; now := now w;
                   trace := trace w ++ [EvLock (mutex u)] |})
      as (HC & Ht & HI & Hm & _);
    unfold getRedisSessionKey, getRedisClientStatusKey, user.SerializeForPacket;
    run; by rewrite ?HC, ?Ht, ?HI, ?Hm.
Qed.

(** X6.  Recording a ping stores the current time as the last ping and
    leaves the last pong alone, recording a pong does the converse, and
    the detected processes read back as they were set; each of these calls
    only takes and releases the mutex of the session. *)
Theorem ping_and_pong_are_recorded_apart
    (u : User) (processes : list string) (w : World) :
  let pinged := user.SetLastPingTimestamp u w in
  let ponged := user.SetLastPongTimestamp u w in
  let scanned := user.SetLastDetectedProcesses u processes w in
  (user.GetLastPingTimestamp pinged.1 pinged.2).1 = now w
  ∧ (user.GetLastPongTimestamp pinged.1 pinged.2).1 = lastPongTimestamp u
  ∧ (user.GetLastPongTimestamp ponged.1 ponged.2).1 = now w
  ∧ (user.GetLastPingTimestamp ponged.1 ponged.2).1 = lastPingTimestamp u
  ∧ (user.GetLastDetectedProcesses scanned.1 scanned.2).1 = processes
  ∧ events_of (user.SetLastPingTimestamp u) w
    = [EvLock (mutex u); EvUnlock (mutex u)]
  ∧ events_of (user.SetLastPongTimestamp u) w
    = [EvLock (mutex u); EvUnlock (mutex u)]
  ∧ events_of (user.SetLastDetectedProcesses u processes) w
    = [EvLock (mutex u); EvUnlock (mutex u)].
Proof.
  cbv zeta. split_and!; try done;
    unfold user.SetLastPingTimestamp, user.SetLastPongTimestamp,
      user.SetLastDetectedProcesses; run;
    by rewrite <- app_assoc, drop_app_length.
Qed.
End more_session_properties.

(** * Further properties of the packet sender *)

Section more_broadcast_properties.
Context {D : Decls} {Sv : Services}.
Import sessions.

Lemma length_omap_le {A B : Type} (f : A → option B) (l : list A) :
  (length (omap f l) ≤ length l)%nat.
Proof.
  induction l as [|x l IH]; [done|]. csimpl.
  destruct (f x); csimpl; lia.
Qed.

Lemma broadcast_events_app data users1 users2 :
  ∀ h, broadcast_events data (users1 ++ users2) h =
       broadcast_events data users1 h
       ++ broadcast_events data users2 (h ++ broadcast_events data users1 h).
Proof.
  induction users1 as [|u users1 IH]; intros h.
  - simpl. by rewrite app_nil_r.
  - cbn [app broadcast_events]. rewrite IH. by rewrite <- !app_assoc.
Qed.

Lemma send_events_outcome data conn h :
  (length (delivered (send_events data conn h))
   + length (failures (send_events data conn h)) = 1)%nat.
Proof.
  unfold send_events. destruct (marshal_result data h) as [e|j]; [done|].
  by destruct (write_result conn j _).
Qed.

Lemma broadcast_events_outcome data users :
  ∀ h, (length (delivered (broadcast_events data users h))
        + length (failures (broadcast_events data users h))
        = length users)%nat.
Proof.
  induction users as [|u users IH]; intros h; [done|].
  cbn [broadcast_events]. unfold delivered, failures in *. rewrite !omap_app.
  rewrite !length_app.
  pose proof (send_events_outcome data (Conn u) h) as H1.
  unfold delivered, failures in H1.
  specialize (IH (h ++ send_events data (Conn u) h)). simpl. lia.
Qed.

(** X7.  Sending to two lists one after the other is sending to their
    concatenation: [SendPacketToUsers] on [users1 ++ users2] is
    [SendPacketToUsers] on [users1] followed by [SendPacketToUsers] on
    [users2]; on no recipient it does nothing at all, and on a single
    recipient it is [SendPacketToUser]. *)
Theorem SendPacketToUsers_app
    (data : Payload) (users1 users2 : list User) (u : User) (w : World) :
  SendPacketToUsers data (users1 ++ users2) w
  = SendPacketToUsers data users2 (SendPacketToUsers data users1 w).2
  ∧ SendPacketToUsers data [] w = (tt, w)
  ∧ SendPacketToUsers data [u] w = SendPacketToUser data u w.
Proof.
  split_and!.
  - rewrite !SendPacketToUsers_run. simpl.
    by rewrite broadcast_events_app, <- app_assoc.
  - done.
  - rewrite SendPacketToUsers_run. unfold SendPacketToUser.
    rewrite SendPacketToConnection_run. simpl. by rewrite app_nil_r.
Qed.

(** X8.  Every recipient of [SendPacketToUsers] ends in exactly one of two
    ways: its frame is accepted by its connection, or its send fails (at
    the serialization or at the write).  Nothing is retried: the writes
    attempted are at most one per recipient, and a recipient named twice
    is served twice. *)
Theorem SendPacketToUsers_accounts_for_every_recipient
    (data : Payload) (users : list User) (u : User) (w : World) :
  let ev := events_of (SendPacketToUsers data users) w in
  (length (delivered ev) + length (failures ev) = length users)%nat
  ∧ (length (writes ev) ≤ length users)%nat
  ∧ length (marshals (events_of (SendPacketToUsers data [u; u]) w)) = 2%nat.
Proof.
  cbv zeta. rewrite !SendPacketToUsers_events. split_and!.
  - apply broadcast_events_outcome.
  - rewrite broadcast_events_writes.
    etrans; [apply length_omap_le|].
    rewrite length_zip_with, broadcast_events_marshals. lia.
  - apply broadcast_events_marshals.
Qed.
End more_broadcast_properties.

(** * Further properties of the Redis keys *)

Section key_properties.
Context {D : Decls}.
Import multiplayer.

Lemma has_colon_app (a b : string) :
  has_colon (a +:+ b) = has_colon a || has_colon b.
Proof.
  induction a as [|c a IH]; [done|]. simpl. rewrite IH.
  by destruct (bool_decide (c = ":"%char)).
Qed.

Lemma pretty_N_char_no_colon (x : N) : pretty_N_char x ≠ ":"%char.
Proof. unfold pretty_N_char. by repeat case_match. Qed.

Lemma pretty_N_go_no_colon (x : N) :
  ∀ s, has_colon s = false → has_colon (pretty_N_go x s) = false.
Proof.
  induction (N.lt_wf_0 x) as [x _ IH]; intros s Hs.
  assert (x = 0 ∨ 0 < x)%N as [->|Hpos] by lia.
  - by rewrite pretty_N_go_0.
  - rewrite pretty_N_go_step by done. apply IH.
    + by apply N.div_lt.
    + simpl. rewrite Hs, orb_false_r.
      apply bool_decide_eq_false_2, pretty_N_char_no_colon.
Qed.

Lemma pretty_N_no_colon (x : N) : has_colon (pretty x) = false.
Proof.
  unfold pretty, pretty_N. case_decide; [done|].
  by apply pretty_N_go_no_colon.
Qed.

(** The decimal text of an integer holds no colon. *)
Lemma fmt_v_int_no_colon (z : Z) : has_colon (fmt_v_int z) = false.
Proof.
  unfold fmt_v_int, pretty, pretty_Z. destruct z as [|p|p]; [done|..].
  - apply (pretty_N_no_colon (N.pos p)).
  - simpl. apply (pretty_N_no_colon (N.pos p)).
Qed.

(** Two texts without colon followed by a colon and a rest: equal wholes
    have equal parts. *)
Lemma split_at_colon (a b x y : string) :
  has_colon a = false → has_colon b = false →
  a +:+ String ":" x = b +:+ String ":" y → a = b ∧ x = y.
Proof.
  revert b. induction a as [|c a IH]; intros [|c' b] Ha Hb Heq; simpl in *.
  - by simplify_eq.
  - by simplify_eq.
  - by simplify_eq.
  - injection Heq as -> Heq.
    apply orb_false_iff in Ha as [_ Ha]. apply orb_false_iff in Hb as [_ Hb].
    destruct (IH b Ha Hb Heq) as [-> ->]. done.
Qed.

Lemma getPlayerRedisKey_inj (g1 g2 : Game) (id1 id2 : Z) :
  getPlayerRedisKey g1 id1 = getPlayerRedisKey g2 id2 →
  objects.Id (Data g1) = objects.Id (Data g2) ∧ id1 = id2.
Proof.
  unfold getPlayerRedisKey. intros Heq.
  apply (inj (String.app "quaver:server:multiplayer:")) in Heq.
  apply split_at_colon in Heq as [Hroom Hid]; [|apply fmt_v_int_no_colon..].
  split.
  - by apply (inj pretty) in Hroom.
  - apply (inj (String.app "player:")) in Hid. by apply (inj pretty) in Hid.
Qed.

Lemma getMatchSettingsRedisKey_not_a_player_key (g1 g2 : Game) (id : Z) :
  getMatchSettingsRedisKey g1 ≠ getPlayerRedisKey g2 id.
Proof.
  unfold getMatchSettingsRedisKey, getPlayerRedisKey. intros Heq.
  apply (inj (String.app "quaver:server:multiplayer:")) in Heq.
  pose proof (fmt_v_int_no_colon (objects.Id (Data g1))) as Hno.
  rewrite Heq, has_colon_app in Hno. simpl in Hno.
  by rewrite orb_true_r in Hno.
Qed.

(** X9.  The key of a player's record determines the room and the player:
    two player keys are equal only for the same room id and the same user
    id, so no two players, and no two rooms, ever share a record. *)
Theorem player_keys_never_collide (g1 g2 : Game) (id1 id2 : Z) :
  getPlayerRedisKey g1 id1 = getPlayerRedisKey g2 id2
  ↔ objects.Id (Data g1) = objects.Id (Data g2) ∧ id1 = id2.
Proof.
  split; [apply getPlayerRedisKey_inj|].
  intros [Hroom ->]. unfold getPlayerRedisKey. by rewrite Hroom.
Qed.

(** X10.  The settings key of a room determines the room, is never the key
    of a player's record (of any room), and the keys of the sessions, of
    the user statuses and of the multiplayer rooms lie in three separate
    namespaces: a session key is never a status key, and neither is ever
    a settings or player key. *)
Theorem settings_keys_never_collide
    (g1 g2 : Game) (id : Z) (u1 u2 : sessions.User) :
  (getMatchSettingsRedisKey g1 = getMatchSettingsRedisKey g2
   ↔ objects.Id (Data g1) = objects.Id (Data g2))
  ∧ getMatchSettingsRedisKey g1 ≠ getPlayerRedisKey g2 id
  ∧ sessions.getRedisSessionKey u1 ≠ sessions.getRedisClientStatusKey u2
  ∧ sessions.getRedisSessionKey u1 ≠ getMatchSettingsRedisKey g1
  ∧ sessions.getRedisSessionKey u1 ≠ getPlayerRedisKey g1 id
  ∧ sessions.getRedisClientStatusKey u1 ≠ getMatchSettingsRedisKey g1
  ∧ sessions.getRedisClientStatusKey u1 ≠ getPlayerRedisKey g1 id.
Proof.
  split_and!.
  - unfold getMatchSettingsRedisKey. split.
    + intros Heq. apply (inj (String.app "quaver:server:multiplayer:")) in Heq.
      by apply (inj pretty) in Heq.
    + by intros ->.
  - apply getMatchSettingsRedisKey_not_a_player_key.
  - unfold sessions.getRedisSessionKey, sessions.getRedisClientStatusKey.
    intros Heq; by simplify_eq/=.
  - unfold sessions.getRedisSessionKey, getMatchSettingsRedisKey.
    intros Heq; by simplify_eq/=.
  - unfold sessions.getRedisSessionKey, getPlayerRedisKey. intros Heq; by simplify_eq/=.
  - unfold sessions.getRedisClientStatusKey, getMatchSettingsRedisKey.
    intros Heq; by simplify_eq/=.
  - unfold sessions.getRedisClientStatusKey, getPlayerRedisKey.
    intros Heq; by simplify_eq/=.
Qed.
End key_properties.

(** * Further properties of the mirroring of games into Redis *)

Section more_cache_properties.
Context {D : Decls} {Sv : Services} {Rg : sessions.Registry}.
Import multiplayer.

Lemma playerRecord_pairs (game : Game) (id : Z) (user : sessions.User) :
  redis_model.pair_up (playerRecord game id user)
  = Some (fields_of (playerRecord game id user))
  ∧ (fields_of (playerRecord game id user)).*1
    = ["id"; "u"; "sid"; "a"; "c"; "w"; "m"; "r"; "hm"]%string.
Proof. done. Qed.

Lemma matchSettings_pairs (game : Game) :
  redis_model.pair_up (matchSettings game) = Some (fields_of (matchSettings game))
  ∧ (fields_of (matchSettings game)).*1
    = ["n"; "pw"; "mp"; "md5"; "mid"; "msid"; "map"; "host"; "r"; "hr"; "gm";
       "d"; "inp"; "m"; "fm"; "trn"]%string.
Proof. done. Qed.

(** What a HSET whose arguments pair up does to the store: nothing when it
    meets a fault, the merge of its fields otherwise. *)
Lemma db_Redis_HSet_store (key : string) (values : list string) (w : World) :
  redis_model.pair_up values = Some (fields_of values) →
  redis (db_Redis (db.HSet key values) w).2
  = match redis_fault (db.HSet key values) (trace w) with
    | Some _ => redis w
    | None => redis_model.hset key (fields_of values) (redis w)
    end.
Proof.
  intros Hpair.
  destruct (redis_fault (db.HSet key values) (trace w)) as [e|] eqn:Hfault.
  - by rewrite (db_Redis_failure _ _ e).
  - by rewrite (db_Redis_success _ _
                  (redis_model.hset key (fields_of values) (redis w)))
      by (done || (unfold redis_model.apply; by rewrite Hpair)).
Qed.

(** What a DEL of one key does to the store. *)
Lemma db_Redis_Del_store (key : string) (w : World) :
  redis (db_Redis (db.Del [key]) w).2
  = match redis_fault (db.Del [key]) (trace w) with
    | Some _ => redis w
    | None => delete key (redis w)
    end.
Proof.
  destruct (redis_fault (db.Del [key]) (trace w)) as [e|] eqn:Hfault.
  - by rewrite (db_Redis_failure _ _ e).
  - by rewrite (db_Redis_success _ _ (delete key (redis w))).
Qed.

(** The four functions leave the store as their Redis command left it. *)
Lemma cachePlayer_store (game : Game) (id : Z) (w : World) :
  redis (cachePlayer game id w).2
  = match sessions.GetUserById id with
    | Some user =>
        redis (db_Redis (db.HSet (getPlayerRedisKey game id)
                           (playerRecord game id user)) w).2
    | None => redis w
    end.
Proof.
  unfold cachePlayer. destruct (sessions.GetUserById id) as [user|]; [|done].
  unfold mbind, M_bind. destruct (db_Redis _ w) as [[e|] w']; done.
Qed.

Lemma cacheMatchSettings_store (game : Game) (w : World) :
  redis (cacheMatchSettings game w).2
  = redis (db_Redis (db.HSet (getMatchSettingsRedisKey game)
                       (matchSettings game)) w).2.
Proof.
  unfold cacheMatchSettings, mbind, M_bind.
  destruct (db_Redis _ w) as [[e|] w']; done.
Qed.

Lemma deleteCachedPlayer_store (game : Game) (id : Z) (w : World) :
  redis (deleteCachedPlayer game id w).2
  = redis (db_Redis (db.Del [getPlayerRedisKey game id]) w).2.
Proof.
  unfold deleteCachedPlayer, mbind, M_bind.
  destruct (db_Redis _ w) as [[e|] w']; done.
Qed.

Lemma deleteCachedMatchSettings_store (game : Game) (w : World) :
  redis (deleteCachedMatchSettings game w).2
  = redis (db_Redis (db.Del [getMatchSettingsRedisKey game]) w).2.
Proof.
  unfold deleteCachedMatchSettings, mbind, M_bind.
  destruct (db_Redis _ w) as [[e|] w']; done.
Qed.

(** A command on one key leaves every other key as it was. *)
Lemma db_Redis_HSet_other (key : string) (values : list string) (w : World) k :
  k ≠ key →
  redis (db_Redis (db.HSet key values) w).2 !! k = redis w !! k.
Proof.
  intros Hk. unfold db_Redis. run.
  destruct (redis_fault _ _); [done|].
  destruct (redis_model.pair_up values); simpl; [|done].
  unfold redis_model.hset. by apply lookup_insert_ne.
Qed.

Lemma db_Redis_Del_other (key : string) (w : World) k :
  k ≠ key →
  redis (db_Redis (db.Del [key]) w).2 !! k = redis w !! k.
Proof.
  intros Hk. rewrite db_Redis_Del_store.
  destruct (redis_fault _ _); [done|]. by apply lookup_delete_ne.
Qed.

Lemma hset_again (key : string) (ps : list (string * string))
    (r : gmap string (gmap string string)) :
  NoDup ps.*1 →
  redis_model.hset key ps (redis_model.hset key ps r) = redis_model.hset key ps r.
Proof.
  intros Hnd. unfold redis_model.hset.
  rewrite insert_insert_eq, lookup_insert_eq. simpl. f_equal.
  apply map_eq. intros f.
  destruct (decide (f ∈ ps.*1)) as [Hin|Hout].
  - apply list_elem_of_fmap in Hin as ([f' v] & -> & Hin). simpl.
    by rewrite !(hset_fields_present ps _ f' v).
  - by rewrite !hset_fields_absent.
Qed.

Lemma hset_other_fields (key : string) (ps : list (string * string))
    (r : gmap string (gmap string string)) (f : string) :
  f ∉ ps.*1 → hget (redis_model.hset key ps r) key f = hget r key f.
Proof.
  intros Hf. unfold hget, redis_model.hset. rewrite lookup_insert_eq. simpl.
  rewrite hset_fields_absent by done.
  by destruct (r !! key).
Qed.

Lemma Find_none {T : Type} (l : list T) (p : T → bool) :
  (∀ x, x ∈ l → p x = false) → utils.Find l p = inl "not found"%string.
Proof.
  induction l as [|x l IH]; intros Hall; [done|]. simpl.
  rewrite (Hall x) by apply list_elem_of_here.
  apply IH. intros y Hy. apply Hall. by apply list_elem_of_further.
Qed.

Lemma Find_first {T : Type} (pre post : list T) (x : T) (p : T → bool) :
  (∀ y, y ∈ pre → p y = false) → p x = true →
  utils.Find (pre ++ x :: post) p = inr x.
Proof.
  induction pre as [|y pre IH]; intros Hpre Hx; simpl.
  - by rewrite Hx.
  - rewrite (Hpre y) by apply list_elem_of_here.
    apply IH; [|done]. intros z Hz. apply Hpre. by apply list_elem_of_further.
Qed.

(** X11.  Mirroring one record never touches another one, whether the
    command goes through or not: [cachePlayer] and [deleteCachedPlayer]
    leave every key but the player's own as it was, hence the record of
    every other player or room and every settings record, and
    [cacheMatchSettings] leaves every player's record and the settings of
    every other room as they were. *)
Theorem mirroring_a_record_leaves_the_others
    (game : Game) (id : Z) (w : World) :
  (∀ k, k ≠ getPlayerRedisKey game id →
        redis (cachePlayer game id w).2 !! k = redis w !! k
        ∧ redis (deleteCachedPlayer game id w).2 !! k = redis w !! k)
  ∧ (∀ g2 id2,
       objects.Id (Data g2) ≠ objects.Id (Data game) ∨ id2 ≠ id →
       redis (cachePlayer game id w).2 !! getPlayerRedisKey g2 id2
       = redis w !! getPlayerRedisKey g2 id2
       ∧ redis (deleteCachedPlayer game id w).2 !! getPlayerRedisKey g2 id2
         = redis w !! getPlayerRedisKey g2 id2)
  ∧ (∀ g2,
       redis (cachePlayer game id w).2 !! getMatchSettingsRedisKey g2
       = redis w !! getMatchSettingsRedisKey g2
       ∧ redis (deleteCachedPlayer game id w).2 !! getMatchSettingsRedisKey g2
         = redis w !! getMatchSettingsRedisKey g2)
  ∧ (∀ g2 id2,
       redis (cacheMatchSettings game w).2 !! getPlayerRedisKey g2 id2
       = redis w !! getPlayerRedisKey g2 id2)
  ∧ (∀ g2,
       objects.Id (Data g2) ≠ objects.Id (Data game) →
       redis (cacheMatchSettings game w).2 !! getMatchSettingsRedisKey g2
       = redis w !! getMatchSettingsRedisKey g2).
Proof.
  assert (Hplayer : ∀ k, k ≠ getPlayerRedisKey game id →
            redis (cachePlayer game id w).2 !! k = redis w !! k
            ∧ redis (deleteCachedPlayer game id w).2 !! k = redis w !! k).
  { intros k Hk. split.
    - rewrite cachePlayer_store.
      destruct (sessions.GetUserById id); [|done].
      by apply db_Redis_HSet_other.
    - rewrite deleteCachedPlayer_store. by apply db_Redis_Del_other. }
  split_and!.
  - exact Hplayer.
  - intros g2 id2 Hne. apply Hplayer. intros Heq.
    apply getPlayerRedisKey_inj in Heq as [Hroom Hid]. by destruct Hne.
  - intros g2. apply Hplayer.
    apply getMatchSettingsRedisKey_not_a_player_key.
  - intros g2 id2. rewrite cacheMatchSettings_store.
    apply db_Redis_HSet_other. intros Heq. symmetry in Heq.
    by apply getMatchSettingsRedisKey_not_a_player_key in Heq.
  - intros g2 Hne. rewrite cacheMatchSettings_store.
    apply db_Redis_HSet_other. unfold getMatchSettingsRedisKey. intros Heq.
    apply (inj (String.app "quaver:server:multiplayer:")) in Heq.
    by apply (inj pretty) in Heq.
Qed.

(** X12.  When the HSET of [cachePlayer] goes through, the record under
    the player's key carries the user id, name, platform id, avatar and
    country of the live session found for the id; the win count is that of
    the wins entry of the player when the room holds exactly one such
    entry, and 0 when it holds none, and likewise the modifiers; and when
    nothing was stored under the key before, the record has exactly the
    nine fields id, u, sid, a, c, w, m, r and hm. *)
Theorem cachePlayer_record_of_the_session
    (game : Game) (id : Z) (user : sessions.User) (w : World) :
  sessions.GetUserById id = Some user →
  redis_fault (db.HSet (getPlayerRedisKey game id) (playerRecord game id user))
    (trace w) = None →
  let d := Data game in
  let field f := hget (redis (cachePlayer game id w).2)
                   (getPlayerRedisKey game id) f in
  field "id"%string = Some (strconv.Itoa (db.Id (sessions.Info user)))
  ∧ field "u"%string = Some (db.Username (sessions.Info user))
  ∧ field "sid"%string = Some (db.SteamId (sessions.Info user))
  ∧ field "a"%string = Some (db.AvatarUrl (sessions.Info user))
  ∧ field "c"%string = Some (db.Country (sessions.Info user))
  ∧ ((∀ x, x ∈ objects.PlayerWins d → objects.wins_Id x ≠ id) →
     field "w"%string = Some "0"%string)
  ∧ ((∀ x, x ∈ objects.PlayerModifiers d → objects.mods_Id x ≠ id) →
     field "m"%string = Some "0"%string)
  ∧ (∀ pre x post,
       objects.PlayerWins d = pre ++ x :: post →
       objects.wins_Id x = id →
       (∀ y, y ∈ pre ++ post → objects.wins_Id y ≠ id) →
       field "w"%string = Some (strconv.Itoa (objects.Wins x)))
  ∧ (∀ pre x post,
       objects.PlayerModifiers d = pre ++ x :: post →
       objects.mods_Id x = id →
       (∀ y, y ∈ pre ++ post → objects.mods_Id y ≠ id) →
       field "m"%string = Some (strconv.Itoa (objects.mods_Modifiers x)))
  ∧ (redis w !! getPlayerRedisKey game id = None →
     ∀ f, is_Some (field f)
          ↔ f ∈ ["id"; "u"; "sid"; "a"; "c"; "w"; "m"; "r"; "hm"]%string).
Proof.
  intros Huser Hfault. cbv zeta.
  set (key := getPlayerRedisKey game id).
  destruct (playerRecord_pairs game id user) as [Hpair Hnames].
  assert (Hnd : NoDup (fields_of (playerRecord game id user)).*1).
  { rewrite Hnames. apply (bool_decide_unpack _). by vm_compute. }
  assert (Hstore : redis (cachePlayer game id w).2
                   = redis_model.hset key (fields_of (playerRecord game id user))
                       (redis w)).
  { rewrite cachePlayer_store, Huser, db_Redis_HSet_store by done.
    by rewrite Hfault. }
  rewrite Hstore.
  assert (Hget : ∀ f v, (f, v) ∈ fields_of (playerRecord game id user) →
            hget (redis_model.hset key (fields_of (playerRecord game id user))
                    (redis w)) key f = Some v).
  { intros f v Hin. by apply hset_hget. }
  assert (Hw : ∀ wins,
            match utils.Find (objects.PlayerWins (Data game))
                    (λ x, bool_decide (objects.wins_Id x = id)) with
            | inr wins => wins
            | inl _ => {| objects.wins_Id := 0; objects.Wins := 0 |}
            end = wins →
            hget (redis_model.hset key (fields_of (playerRecord game id user))
                    (redis w)) key "w" = Some (strconv.Itoa (objects.Wins wins))).
  { intros wins <-. apply Hget. apply list_elem_of_In. simpl. tauto. }
  assert (Hm : ∀ mods,
            match utils.Find (objects.PlayerModifiers (Data game))
                    (λ x, bool_decide (objects.mods_Id x = id)) with
            | inr mods => mods
            | inl _ => {| objects.mods_Id := 0; objects.mods_Modifiers := 0 |}
            end = mods →
            hget (redis_model.hset key (fields_of (playerRecord game id user))
                    (redis w)) key "m"
            = Some (strconv.Itoa (objects.mods_Modifiers mods))).
  { intros mods <-. apply Hget. apply list_elem_of_In. simpl. tauto. }
  split_and!.
  - apply Hget. apply list_elem_of_In. simpl. tauto.
  - apply Hget. apply list_elem_of_In. simpl. tauto.
  - apply Hget. apply list_elem_of_In. simpl. tauto.
  - apply Hget. apply list_elem_of_In. simpl. tauto.
  - apply Hget. apply list_elem_of_In. simpl. tauto.
  - intros Hnone.
    apply (Hw {| objects.wins_Id := 0; objects.Wins := 0 |}).
    rewrite Find_none; [done|].
    intros x Hx. apply bool_decide_eq_false_2. by apply Hnone.
  - intros Hnone.
    apply (Hm {| objects.mods_Id := 0; objects.mods_Modifiers := 0 |}).
    rewrite Find_none; [done|].
    intros x Hx. apply bool_decide_eq_false_2. by apply Hnone.
  - intros pre x post Hl Hx Hothers. apply (Hw x).
    rewrite Hl, Find_first; [done| |by apply bool_decide_eq_true_2].
    intros y Hy. apply bool_decide_eq_false_2, Hothers, elem_of_app. by left.
  - intros pre x post Hl Hx Hothers. apply (Hm x).
    rewrite Hl, Find_first; [done| |by apply bool_decide_eq_true_2].
    intros y Hy. apply bool_decide_eq_false_2, Hothers, elem_of_app. by left.
  - intros Hfresh f. rewrite <- Hnames. split.
    + intros Hsome. destruct (decide (f ∈ (fields_of (playerRecord game id user)).*1))
        as [|Hout]; [done|].
      rewrite hset_other_fields in Hsome by done.
      unfold hget in Hsome. rewrite Hfresh in Hsome. by destruct Hsome.
    + intros Hin. apply list_elem_of_fmap in Hin as ([f' v] & -> & Hin).
      simpl. rewrite (Hget f' v Hin). eauto.
Qed.

(** X13.  Caching is a merge that can be repeated: a field of the stored
    record that is not one of those [cachePlayer] (or [cacheMatchSettings])
    writes is left as it was, so the record is not cleared first; and once
    a player (or the settings) has been cached, caching it again from the
    same game data leaves the cache as it is, whether the second command
    goes through or not. *)
Theorem caching_merges_and_can_be_repeated
    (game : Game) (id : Z) (user : sessions.User) (w : World) :
  sessions.GetUserById id = Some user →
  (∀ f, f ∉ ["id"; "u"; "sid"; "a"; "c"; "w"; "m"; "r"; "hm"]%string →
        hget (redis (cachePlayer game id w).2) (getPlayerRedisKey game id) f
        = hget (redis w) (getPlayerRedisKey game id) f)
  ∧ (∀ f, f ∉ ["n"; "pw"; "mp"; "md5"; "mid"; "msid"; "map"; "host"; "r";
               "hr"; "gm"; "d"; "inp"; "m"; "fm"; "trn"]%string →
          hget (redis (cacheMatchSettings game w).2)
            (getMatchSettingsRedisKey game) f
          = hget (redis w) (getMatchSettingsRedisKey game) f)
  ∧ (redis_fault (db.HSet (getPlayerRedisKey game id)
                    (playerRecord game id user)) (trace w) = None →
     redis (cachePlayer game id (cachePlayer game id w).2).2
     = redis (cachePlayer game id w).2)
  ∧ (redis_fault (db.HSet (getMatchSettingsRedisKey game)
                    (matchSettings game)) (trace w) = None →
     redis (cacheMatchSettings game (cacheMatchSettings game w).2).2
     = redis (cacheMatchSettings game w).2).
Proof.
  intros Huser.
  destruct (playerRecord_pairs game id user) as [Hpp Hpn].
  destruct (matchSettings_pairs game) as [Hsp Hsn].
  assert (Hpnd : NoDup (fields_of (playerRecord game id user)).*1).
  { rewrite Hpn. apply (bool_decide_unpack _). by vm_compute. }
  assert (Hsnd : NoDup (fields_of (matchSettings game)).*1).
  { rewrite Hsn. apply (bool_decide_unpack _). by vm_compute. }
  split_and!.
  - intros f Hf. rewrite cachePlayer_store, Huser, db_Redis_HSet_store by done.
    destruct (redis_fault _ _); [done|].
    apply hset_other_fields. by rewrite Hpn.
  - intros f Hf. rewrite cacheMatchSettings_store, db_Redis_HSet_store by done.
    destruct (redis_fault _ _); [done|].
    apply hset_other_fields. by rewrite Hsn.
  - intros Hfault.
    rewrite (cachePlayer_store game id (cachePlayer game id w).2), Huser.
    rewrite db_Redis_HSet_store by done.
    destruct (redis_fault _ (trace (cachePlayer game id w).2)); [done|].
    rewrite cachePlayer_store, Huser, db_Redis_HSet_store, Hfault by done.
    by apply hset_again.
  - intros Hfault.
    rewrite (cacheMatchSettings_store game (cacheMatchSettings game w).2).
    rewrite db_Redis_HSet_store by done.
    destruct (redis_fault _ (trace (cacheMatchSettings game w).2)); [done|].
    rewrite cacheMatchSettings_store, db_Redis_HSet_store, Hfault by done.
    by apply hset_again.
Qed.

(** X14.  [deleteCachedMatchSettings] sends one DEL on the settings key of
    the room.  When the command goes through the settings record is gone
    and nothing is logged; when it fails the failure is logged.  In both
    cases every other key holds what it held, and so the record of every
    player, of this room or of any other, stays where it is: the players'
    records have to be deleted one by one. *)
Theorem deleteCachedMatchSettings_removes_the_settings_only
    (game : Game) (w : World) :
  let key := getMatchSettingsRedisKey game in
  let cmd := db.Del [key] in
  let out := deleteCachedMatchSettings game w in
  let ev := events_of (deleteCachedMatchSettings game) w in
  redis_calls ev = [cmd]
  ∧ (redis_fault cmd (trace w) = None →
       redis out.2 = delete key (redis w) ∧ redis out.2 !! key = None
       ∧ logged ev = [])
  ∧ (∀ e, redis_fault cmd (trace w) = Some e →
       logged ev = ["Failed to remove match settings in redis - " +:+ e +:+ LF])
  ∧ (∀ k, k ≠ key → redis out.2 !! k = redis w !! k)
  ∧ (∀ g2 id2, redis out.2 !! getPlayerRedisKey g2 id2
               = redis w !! getPlayerRedisKey g2 id2).
Proof.
  cbv zeta. set (key := getMatchSettingsRedisKey game).
  assert (Hothers : ∀ k, k ≠ key →
            redis (deleteCachedMatchSettings game w).2 !! k = redis w !! k).
  { intros k Hk. rewrite deleteCachedMatchSettings_store.
    by apply db_Redis_Del_other. }
  assert (Hplayers : ∀ g2 id2,
            redis (deleteCachedMatchSettings game w).2 !! getPlayerRedisKey g2 id2
            = redis w !! getPlayerRedisKey g2 id2).
  { intros g2 id2. apply Hothers. intros Heq. symmetry in Heq.
    by apply getMatchSettingsRedisKey_not_a_player_key in Heq. }
  revert Hothers Hplayers.
  unfold deleteCachedMatchSettings, events_of, mbind, M_bind. fold key.
  destruct (redis_fault (db.Del [key]) (trace w)) as [e|] eqn:Hfault.
  - rewrite (db_Redis_failure _ _ e) by done. run.
    rewrite <- app_assoc, drop_app_length. intros Hothers Hplayers.
    split_and!; [done | done | | done | done].
    intros e' [= <-]. done.
  - rewrite (db_Redis_success _ _ (delete key (redis w))) by done.
    run. rewrite drop_app_length. intros Hothers Hplayers.
    split_and!; [done | | done | done | done].
    intros _. split_and!; [done | apply lookup_delete_eq | done].
Qed.

(** X15.  Caching and then deleting gives back the cache one started
    from: when nothing is stored under the player's key, [cachePlayer]
    followed by a [deleteCachedPlayer] whose DEL goes through leaves the
    cache exactly as it was before the two calls, whether the player was
    cached or not; and the same holds for [cacheMatchSettings] followed by
    [deleteCachedMatchSettings]. *)
Theorem caching_then_deleting_restores_the_cache
    (game : Game) (id : Z) (w : World) :
  (redis w !! getPlayerRedisKey game id = None →
   redis_fault (db.Del [getPlayerRedisKey game id])
     (trace (cachePlayer game id w).2) = None →
   redis (deleteCachedPlayer game id (cachePlayer game id w).2).2 = redis w)
  ∧ (redis w !! getMatchSettingsRedisKey game = None →
     redis_fault (db.Del [getMatchSettingsRedisKey game])
       (trace (cacheMatchSettings game w).2) = None →
     redis (deleteCachedMatchSettings game (cacheMatchSettings game w).2).2
     = redis w).
Proof.
  split.
  - intros Hfresh Hdel.
    rewrite deleteCachedPlayer_store, db_Redis_Del_store, Hdel.
    rewrite cachePlayer_store.
    destruct (sessions.GetUserById id) as [user|]; [|by apply delete_id].
    destruct (playerRecord_pairs game id user) as [Hpair _].
    rewrite db_Redis_HSet_store by done.
    destruct (redis_fault _ (trace w)); [by apply delete_id|].
    unfold redis_model.hset. by apply delete_insert_id.
  - intros Hfresh Hdel.
    rewrite deleteCachedMatchSettings_store, db_Redis_Del_store, Hdel.
    rewrite cacheMatchSettings_store.
    destruct (matchSettings_pairs game) as [Hpair _].
    rewrite db_Redis_HSet_store by done.
    destruct (redis_fault _ (trace w)); [by apply delete_id|].
    unfold redis_model.hset. by apply delete_insert_id.
Qed.
End more_cache_properties.

(** * Properties of the session tokens and of the user counter in Redis *)

(** Unfolds the state transformer over the cache. *)
Ltac crun :=
  unfold sessions_redis.Redis_Set, sessions_redis.Redis_Keys,
    sessions_redis.Redis_Del;
  unfold mbind, sessions_redis.C_bind, mret, sessions_redis.C_ret,
    sessions_redis.sent;
  simpl.

Section token_properties.
Context {D : Decls} {E : sessions_redis.Env}.
Import sessions_redis.

(** A pattern ending in its only star matches the keys it is a prefix of. *)
Lemma glob_final_star (p : string) :
  ∀ k, glob (p +:+ "*") k = true ↔ ∃ t, k = p +:+ t.
Proof.
  induction p as [|c p IH]; intros k.
  - simpl. destruct k; simpl; split; eauto.
  - change (String c p +:+ "*") with (String c (p +:+ "*")). cbn [glob].
    rewrite bool_decide_eq_false_2.
    2:{ intros [= Hc Hp]. by destruct p. }
    destruct k as [|c' k].
    + split; [done|]. by intros [t Ht].
    + rewrite andb_true_iff, bool_decide_eq_true, IH. split.
      * intros [-> [t ->]]. by exists t.
      * intros [t [= -> ->]]. eauto.
Qed.

Lemma elem_of_matching (p : string) (s : gmap string string) (k : string) :
  k ∈ matching p s ↔ glob p k = true ∧ is_Some (s !! k).
Proof.
  unfold matching. rewrite list_elem_of_filter, list_elem_of_fmap. split.
  - intros [Hg ([k' v] & -> & Hin)]. split; [done|].
    apply elem_of_map_to_list in Hin. simpl. eauto.
  - intros [Hg [v Hv]]. split; [done|]. exists (k, v). split; [done|].
    by apply elem_of_map_to_list.
Qed.

Lemma lookup_delete_all (ks : list string) :
  ∀ (s : gmap string string) k,
    foldl (λ es k, delete k es) s ks !! k
    = if decide (k ∈ ks) then None else s !! k.
Proof.
  induction ks as [|k' ks IH]; intros s k; [done|]. simpl. rewrite IH.
  destruct (decide (k ∈ ks)) as [Hin|Hout].
  - rewrite decide_True; [done|]. by apply list_elem_of_further.
  - destruct (decide (k = k')) as [->|Hne].
    + rewrite decide_True by apply list_elem_of_here. apply lookup_delete_eq.
    + rewrite decide_False.
      * by apply lookup_delete_ne.
      * intros [?|?]%elem_of_cons; done.
Qed.

(** What [ClearRedisUserTokens] does, by the outcome of its commands. *)
Lemma ClearRedisUserTokens_run (s : Cache) :
  let pat := "quaver:server:session:*"%string in
  let keys := matching pat (entries s) in
  ClearRedisUserTokens s =
  match fault (KEYS pat) (issued s) with
  | Some e => (Some e, {| entries := entries s; issued := issued s ++ [KEYS pat] |})
  | None =>
      match keys with
      | [] => (None, {| entries := entries s; issued := issued s ++ [KEYS pat] |})
      | _ :: _ =>
          match fault (DEL keys) (issued s ++ [KEYS pat]) with
          | Some e =>
              (Some e, {| entries :=
                            if applied (DEL keys) (issued s ++ [KEYS pat])
                            then foldl (λ es k, delete k es) (entries s) keys
                            else entries s;
                          issued := issued s ++ [KEYS pat; DEL keys] |})
          | None =>
              (None, {| entries := foldl (λ es k, delete k es) (entries s) keys;
                        issued := issued s ++ [KEYS pat; DEL keys] |})
          end
      end
  end.
Proof.
  cbv zeta. unfold ClearRedisUserTokens. crun.
  destruct (fault (KEYS _) (issued s)) as [e|]; [done|]. simpl.
  destruct (matching _ (entries s)) as [|k ks] eqn:Hkeys; [done|]. simpl.
  destruct (fault (DEL (k :: ks)) _) as [e|]; simpl;
    by rewrite <- app_assoc.
Qed.

(** When both commands go through, what is left is what the deletion of
    the matching keys leaves. *)
Lemma ClearRedisUserTokens_cleared (s : Cache) :
  fault (KEYS "quaver:server:session:*") (issued s) = None →
  fault (DEL (matching "quaver:server:session:*" (entries s)))
    (issued s ++ [KEYS "quaver:server:session:*"]) = None →
  (ClearRedisUserTokens s).1 = None
  ∧ entries (ClearRedisUserTokens s).2
    = foldl (λ es k, delete k es) (entries s)
        (matching "quaver:server:session:*" (entries s)).
Proof.
  intros Hkeys Hdel. rewrite ClearRedisUserTokens_run. cbv zeta.
  rewrite Hkeys.
  destruct (matching _ (entries s)) as [|k ks] eqn:Hm; [done|].
  by rewrite Hdel.
Qed.

(** Deleting the keys that match the session pattern removes the session
    namespace and nothing else. *)
Lemma delete_session_keys (es : gmap string string) :
  let es' := foldl (λ es k, delete k es) es
               (matching "quaver:server:session:*" es) in
  (∀ k t, k = "quaver:server:session:" +:+ t → es' !! k = None)
  ∧ (∀ k, (∀ t, k ≠ "quaver:server:session:" +:+ t) → es' !! k = es !! k).
Proof.
  cbv zeta.
  assert (Hin : ∀ k, k ∈ matching "quaver:server:session:*" es
                     ↔ (∃ t, k = "quaver:server:session:" +:+ t)
                       ∧ is_Some (es !! k)).
  { intros k. rewrite elem_of_matching.
    by rewrite <- (glob_final_star "quaver:server:session:"). }
  split.
  - intros k t Hk. rewrite lookup_delete_all.
    case_decide as Hd; [done|].
    destruct (es !! k) eqn:Hlook; [|done].
    destruct Hd. apply Hin. eauto.
  - intros k Hk. rewrite lookup_delete_all.
    case_decide as Hd; [|done].
    apply Hin in Hd as [[t Ht] _]. by destruct (Hk t).
Qed.

(** X16.  [ClearRedisUserTokens] first asks for the keys of the session
    namespace and sends a DEL only when there is at least one: the
    commands it sends are either the KEYS alone or the KEYS followed by
    one DEL of a non-empty list of keys, never a DEL without keys.  When
    the KEYS goes through and no stored key lies in the session namespace,
    it returns no error, sends the KEYS alone and leaves the entries as
    they were. *)
Theorem ClearRedisUserTokens_never_deletes_nothing (s : Cache) :
  let pat := "quaver:server:session:*"%string in
  let out := ClearRedisUserTokens s in
  (issued out.2 = issued s ++ [KEYS pat]
   ∨ ∃ ks, ks ≠ [] ∧ issued out.2 = issued s ++ [KEYS pat; DEL ks])
  ∧ (fault (KEYS pat) (issued s) = None →
     (∀ k t, k = "quaver:server:session:" +:+ t → entries s !! k = None) →
     out = (None, {| entries := entries s; issued := issued s ++ [KEYS pat] |})).
Proof.
  cbv zeta. rewrite ClearRedisUserTokens_run. cbv zeta. split.
  - destruct (fault (KEYS _) (issued s)); [by left|].
    destruct (matching _ (entries s)) as [|k ks]; [by left|].
    right. exists (k :: ks). by destruct (fault (DEL _) _).
  - intros -> Hnone.
    destruct (matching _ (entries s)) as [|k ks] eqn:Hkeys; [done|].
    assert (k ∈ matching "quaver:server:session:*" (entries s)) as Hk
      by (rewrite Hkeys; apply list_elem_of_here).
    apply elem_of_matching in Hk as [Hg [v Hv]].
    apply (glob_final_star "quaver:server:session:") in Hg as [t Ht].
    by rewrite (Hnone k t Ht) in Hv.
Qed.

(** X17.  When both of its commands go through, [ClearRedisUserTokens]
    returns no error, no key of the session namespace is stored any more
    (in particular the session key of no user), and every entry outside
    that namespace, the user counter among them, is what it was. *)
Theorem ClearRedisUserTokens_clears_the_session_namespace (s : Cache) :
  let pat := "quaver:server:session:*"%string in
  let out := ClearRedisUserTokens s in
  fault (KEYS pat) (issued s) = None →
  fault (DEL (matching pat (entries s))) (issued s ++ [KEYS pat]) = None →
  out.1 = None
  ∧ (∀ k t, k = "quaver:server:session:" +:+ t → entries out.2 !! k = None)
  ∧ (∀ u : sessions.User, entries out.2 !! sessions.getRedisSessionKey u = None)
  ∧ (∀ k, (∀ t, k ≠ "quaver:server:session:" +:+ t) →
          entries out.2 !! k = entries s !! k)
  ∧ entries out.2 !! "quaver:server:online_users"
    = entries s !! "quaver:server:online_users".
Proof.
  cbv zeta. intros Hkeys Hdel.
  destruct (ClearRedisUserTokens_cleared s Hkeys Hdel) as [Hres Hent].
  assert (Hin : ∀ k, k ∈ matching "quaver:server:session:*" (entries s)
                     ↔ (∃ t, k = "quaver:server:session:" +:+ t)
                       ∧ is_Some (entries s !! k)).
  { intros k. rewrite elem_of_matching.
    by rewrite <- (glob_final_star "quaver:server:session:"). }
  assert (Hgone : ∀ k t, k = "quaver:server:session:" +:+ t →
                         entries (ClearRedisUserTokens s).2 !! k = None).
  { intros k t Hk. rewrite Hent, lookup_delete_all.
    case_decide as Hd; [done|].
    destruct (entries s !! k) eqn:Hlook; [|done].
    destruct Hd. apply Hin. eauto. }
  assert (Hkept : ∀ k, (∀ t, k ≠ "quaver:server:session:" +:+ t) →
                       entries (ClearRedisUserTokens s).2 !! k = entries s !! k).
  { intros k Hk. rewrite Hent, lookup_delete_all.
    case_decide as Hd; [|done].
    apply Hin in Hd as [[t Ht] _]. by destruct (Hk t). }
  split_and!; [done | exact Hgone | | exact Hkept |].
  - intros u. by apply (Hgone _ (sessions.token u)).
  - apply Hkept. intros t Ht. by simplify_eq/=.
Qed.

(** X18.  A failure of either command of [ClearRedisUserTokens] is
    returned to the caller.  When the KEYS fails no DEL is sent at all,
    and the entries, which a KEYS only reads, are as they were.  When the
    DEL fails, the KEYS and that one DEL are all that was sent, every
    entry outside the session namespace is what it was, and the session
    namespace is either untouched or, the server having carried the DEL
    out before the client met the fault, empty. *)
Theorem ClearRedisUserTokens_returns_the_failure (s : Cache) (e : error) :
  let pat := "quaver:server:session:*"%string in
  let keys := matching pat (entries s) in
  let out := ClearRedisUserTokens s in
  (fault (KEYS pat) (issued s) = Some e →
   out = (Some e, {| entries := entries s; issued := issued s ++ [KEYS pat] |}))
  ∧ (fault (KEYS pat) (issued s) = None →
     keys ≠ [] →
     fault (DEL keys) (issued s ++ [KEYS pat]) = Some e →
     out.1 = Some e
     ∧ issued out.2 = issued s ++ [KEYS pat; DEL keys]
     ∧ (∀ k, (∀ t, k ≠ "quaver:server:session:" +:+ t) →
             entries out.2 !! k = entries s !! k)
     ∧ (entries out.2 = entries s
        ∨ ∀ k t, k = "quaver:server:session:" +:+ t →
                 entries out.2 !! k = None)
     ∧ (applied (DEL keys) (issued s ++ [KEYS pat]) = true →
        ∀ k t, k = "quaver:server:session:" +:+ t →
               entries out.2 !! k = None)).
Proof.
  cbv zeta. rewrite ClearRedisUserTokens_run. cbv zeta. split.
  - by intros ->.
  - intros -> Hne Hdel.
    destruct (delete_session_keys (entries s)) as [Hgone Hkept].
    destruct (matching _ (entries s)) as [|k ks]; [done|]. rewrite Hdel.
    cbn [fst snd entries issued].
    destruct (applied _ _).
    + split_and!; [done | done | exact Hkept | by right | by intros _].
    + split_and!; [done | done | done | by left | done].
Qed.

(** X19.  When the SET goes through, [addUserTokenToRedis] stores the
    decimal user id under the session key of the user and touches no other
    entry; a following [removeUserTokenFromRedis] whose DEL goes through
    removes it again, giving back the entries one started from when the
    key was free, and so does a following [ClearRedisUserTokens] whose
    commands go through.  A failure of the SET or of the DEL is returned
    to the caller; it leaves every other entry as it was, and the session
    key either as it was or as the command, carried out by the server
    before the client met the fault, leaves it. *)
Theorem session_token_is_added_and_removed (user : sessions.User) (s : Cache) :
  let key := sessions.getRedisSessionKey user in
  let value := strconv.Itoa (db.Id (sessions.Info user)) in
  let added := addUserTokenToRedis user s in
  let removed := removeUserTokenFromRedis user added.2 in
  let cleared := ClearRedisUserTokens added.2 in
  (fault (SET key value) (issued s) = None →
     added.1 = None
     ∧ entries added.2 !! key = Some value
     ∧ (∀ k, k ≠ key → entries added.2 !! k = entries s !! k)
     ∧ (fault (DEL [key]) (issued added.2) = None →
        removed.1 = None ∧ entries removed.2 !! key = None
        ∧ (entries s !! key = None → entries removed.2 = entries s))
     ∧ (fault (KEYS "quaver:server:session:*") (issued added.2) = None →
        fault (DEL (matching "quaver:server:session:*" (entries added.2)))
          (issued added.2 ++ [KEYS "quaver:server:session:*"]) = None →
        cleared.1 = None ∧ entries cleared.2 !! key = None))
  ∧ (∀ e, fault (SET key value) (issued s) = Some e →
          added.1 = Some e
          ∧ (∀ k, k ≠ key → entries added.2 !! k = entries s !! k)
          ∧ (entries added.2 !! key = entries s !! key
             ∨ entries added.2 !! key = Some value)
          ∧ (applied (SET key value) (issued s) = true →
             entries added.2 !! key = Some value))
  ∧ (∀ e, fault (DEL [key]) (issued s) = Some e →
          let failed := removeUserTokenFromRedis user s in
          failed.1 = Some e
          ∧ (∀ k, k ≠ key → entries failed.2 !! k = entries s !! k)
          ∧ (entries failed.2 !! key = entries s !! key
             ∨ entries failed.2 !! key = None)
          ∧ (applied (DEL [key]) (issued s) = true →
             entries failed.2 !! key = None)).
Proof.
  cbv zeta. split_and!.
  - intros Hset.
    assert (Hadded : addUserTokenToRedis user s =
              (None, {| entries := <[sessions.getRedisSessionKey user :=
                                       strconv.Itoa (db.Id (sessions.Info user))]>
                                     (entries s);
                        issued := issued s
                                  ++ [SET (sessions.getRedisSessionKey user)
                                        (strconv.Itoa (db.Id (sessions.Info user)))] |})).
    { unfold addUserTokenToRedis. crun. by rewrite Hset. }
    rewrite Hadded. simpl. split_and!.
    + done.
    + apply lookup_insert_eq.
    + intros k Hk. by apply lookup_insert_ne.
    + intros Hdel. unfold removeUserTokenFromRedis. crun. rewrite Hdel. simpl.
      split_and!; [done | apply lookup_delete_eq |].
      intros Hfree. by apply delete_insert_id.
    + intros Hkeys Hdel.
      destruct (ClearRedisUserTokens_cleared
                  {| entries := <[sessions.getRedisSessionKey user :=
                                    strconv.Itoa (db.Id (sessions.Info user))]>
                                  (entries s);
                     issued := issued s
                               ++ [SET (sessions.getRedisSessionKey user)
                                     (strconv.Itoa (db.Id (sessions.Info user)))] |}
                  Hkeys Hdel) as [Hres Hent].
      split; [exact Hres|]. rewrite Hent, lookup_delete_all.
      rewrite decide_True; [done|].
      apply elem_of_matching. split.
      * apply (glob_final_star "quaver:server:session:").
        by exists (sessions.token user).
      * cbn [entries]. rewrite lookup_insert_eq. eauto.
  - intros e Hset. unfold addUserTokenToRedis. crun. rewrite Hset.
    destruct (applied _ _); cbn [fst snd entries].
    + split_and!; [done | | right | intros _]; try apply lookup_insert_eq.
      intros k Hk. by apply lookup_insert_ne.
    + split_and!; [done | done | by left | done].
  - intros e Hdel. unfold removeUserTokenFromRedis. crun. rewrite Hdel.
    destruct (applied _ _); cbn [fst snd entries foldl].
    + split_and!; [done | | right | intros _]; try apply lookup_delete_eq.
      intros k Hk. by apply lookup_delete_ne.
    + split_and!; [done | done | by left | done].
Qed.

(** X20.  When its SET goes through, [UpdateRedisOnlineUserCount] stores
    the decimal count of online users under [quaver:server:online_users]
    and touches no other entry, so no session token; and the counter
    written survives a following [ClearRedisUserTokens], whatever that
    one's commands do.  A failure of the SET is returned to the caller; it
    leaves every other entry as it was, and the counter either as it was
    or, the server having carried the SET out before the client met the
    fault, at the new count. *)
Theorem online_user_count_is_published (s : Cache) :
  let key := "quaver:server:online_users"%string in
  let value := strconv.Itoa GetOnlineUserCount in
  let out := UpdateRedisOnlineUserCount s in
  (fault (SET key value) (issued s) = None →
     out.1 = None
     ∧ entries out.2 !! key = Some value
     ∧ (∀ k, k ≠ key → entries out.2 !! k = entries s !! k)
     ∧ (∀ u : sessions.User,
          entries out.2 !! sessions.getRedisSessionKey u
          = entries s !! sessions.getRedisSessionKey u)
     ∧ entries (ClearRedisUserTokens out.2).2 !! key = Some value)
  ∧ (∀ e, fault (SET key value) (issued s) = Some e →
          out.1 = Some e
          ∧ (∀ k, k ≠ key → entries out.2 !! k = entries s !! k)
          ∧ (entries out.2 !! key = entries s !! key
             ∨ entries out.2 !! key = Some value)
          ∧ (applied (SET key value) (issued s) = true →
             entries out.2 !! key = Some value)).
Proof.
  cbv zeta. split.
  - intros Hset.
    assert (Hout : UpdateRedisOnlineUserCount s =
              (None, {| entries := <["quaver:server:online_users"%string :=
                                       strconv.Itoa GetOnlineUserCount]> (entries s);
                        issued := issued s
                                  ++ [SET "quaver:server:online_users"
                                        (strconv.Itoa GetOnlineUserCount)] |})).
    { unfold UpdateRedisOnlineUserCount. crun. by rewrite Hset. }
    rewrite Hout. simpl. split_and!.
    + done.
    + apply lookup_insert_eq.
    + intros k Hk. by apply lookup_insert_ne.
    + intros u. apply lookup_insert_ne.
      unfold sessions.getRedisSessionKey. intros Heq. by simplify_eq/=.
    + rewrite ClearRedisUserTokens_run. cbv zeta. cbn [entries issued].
      destruct (fault (KEYS _) _); [apply lookup_insert_eq|].
      set (m := matching _ _).
      assert ("quaver:server:online_users"%string ∉ m) as Hout'.
      { intros Hin. apply elem_of_matching in Hin as [Hg _].
        apply (glob_final_star "quaver:server:session:") in Hg as [t Ht].
        by simplify_eq/=. }
      destruct m as [|k ks] eqn:Hm; [apply lookup_insert_eq|].
      destruct (fault (DEL _) _); cbn [snd entries];
        [destruct (applied _ _); [|apply lookup_insert_eq]|].
      all: rewrite (lookup_delete_all (k :: ks)), decide_False by done.
      all: apply lookup_insert_eq.
  - intros e Hset. unfold UpdateRedisOnlineUserCount. crun. rewrite Hset.
    destruct (applied _ _); cbn [fst snd entries].
    + split_and!; [done | | right | intros _]; try apply lookup_insert_eq.
      intros k Hk. by apply lookup_insert_ne.
    + split_and!; [done | done | by left | done].
Qed.
End token_properties.

(** * The further properties on concrete runs *)

Section more_concrete_runs.
Import scenario token_scenario.

(** X1 on a run: the database fails at mode 2, both modes are asked for and
    the mutex is released. *)
Lemma SetStats_trace_with_failing_database :
  events_of (sessions.SetStats (Sv := db_fails_at_2) A) boot
  = [EvLock 1; EvGetUserStats 1 "CA" 1; EvGetUserStats 1 "CA" 2; EvUnlock 1].
Proof.
  destruct (SetStats_asks_in_order_and_always_unlocks
              (Sv := db_fails_at_2) A boot 2) as [Hev _].
  - simpl. lia.
  - intros m Hm. exists 101. assert (m = 1) as -> by lia. reflexivity.
  - intros _. eexists. reflexivity.
  - exact Hev.
Defined.

(** X4 on a run: a new session for user 1, then [SetStats] on a healthy
    database. *)
Lemma NewUser_then_SetStats_on_healthy_database :
  let new := user.NewUser 1 (sessions.Info A) "abc" 1 boot in
  let out := sessions.SetStats (Sv := healthy) new.1 new.2 in
  out.1.1 = None
  ∧ dom (sessions.stats out.1.2) = list_to_set (tracked_modes (D := decls)).
Proof.
  destruct (NewUser_then_SetStats_holds_the_tracked_modes
              (Sv := healthy) 1 (sessions.Info A) "abc" 1 boot)
    as (_ & Hr & Hdom).
  - intros m Hm. eexists. reflexivity.
  - split; [exact Hr | exact Hdom].
Defined.

(** X12 on a run: player 7 of room 42 has one wins entry, of three wins,
    and no modifiers entry. *)
Lemma cachePlayer_wins_and_modifiers_of_player7 :
  let w' := (multiplayer.cachePlayer (Sv := healthy) (Rg := only_B)
               room42 7 boot).2 in
  (hget (redis w') "quaver:server:multiplayer:42:player:7" "u" = Some "bob"
   ∧ hget (redis w') "quaver:server:multiplayer:42:player:7" "w" = Some "3"
   ∧ hget (redis w') "quaver:server:multiplayer:42:player:7" "m" = Some "0")%string.
Proof.
  pose proof (cachePlayer_record_of_the_session
                (Sv := healthy) (Rg := only_B) room42 7 B boot eq_refl eq_refl)
    as H.
  cbv zeta in H. destruct H as (_ & Hu & _ & _ & _ & _ & Hm & Hw & _).
  split_and!.
  - exact Hu.
  - apply (Hw [] {| objects.wins_Id := 7; objects.Wins := 3 |} []).
    + reflexivity.
    + reflexivity.
    + intros y Hy. by apply elem_of_nil in Hy.
  - apply Hm. intros x Hx. by apply elem_of_nil in Hx.
Defined.

(** X13 on a run: caching player 7 twice is caching it once. *)
Lemma cachePlayer_twice_for_player7 :
  redis (multiplayer.cachePlayer (Sv := healthy) (Rg := only_B) room42 7
           (multiplayer.cachePlayer (Sv := healthy) (Rg := only_B)
              room42 7 boot).2).2
  = redis (multiplayer.cachePlayer (Sv := healthy) (Rg := only_B)
             room42 7 boot).2.
Proof.
  destruct (caching_merges_and_can_be_repeated
              (Sv := healthy) (Rg := only_B) room42 7 B boot eq_refl)
    as (_ & _ & H & _).
  apply H. reflexivity.
Defined.

(** X15 on a run: room 42 is cached and deleted, and the cache is empty
    again. *)
Lemma cacheMatchSettings_then_delete_room42 :
  redis (multiplayer.deleteCachedMatchSettings (Sv := healthy) room42
           (multiplayer.cacheMatchSettings (Sv := healthy) room42 boot).2).2
  = ∅.
Proof.
  destruct (caching_then_deleting_restores_the_cache
              (Sv := healthy) (Rg := only_B) room42 7 boot) as [_ H].
  apply H; reflexivity.
Defined.

(** X16 on a run: with no session token stored, only the KEYS is sent. *)
Lemma ClearRedisUserTokens_on_a_clean_cache :
  sessions_redis.ClearRedisUserTokens (E := calm) clean
  = (None, {| sessions_redis.entries := sessions_redis.entries clean;
              sessions_redis.issued :=
                [sessions_redis.KEYS "quaver:server:session:*"] |}).
Proof.
  destruct (ClearRedisUserTokens_never_deletes_nothing (E := calm) clean)
    as [_ H].
  apply H; [reflexivity|].
  intros k t ->. vm_compute. reflexivity.
Defined.

(** X17 on a run: the stale token goes, the counter stays. *)
Lemma ClearRedisUserTokens_on_a_stale_cache :
  let out := sessions_redis.ClearRedisUserTokens (E := calm) stale in
  (sessions_redis.entries out.2 !! "quaver:server:session:old" = None
   ∧ sessions_redis.entries out.2 !! "quaver:server:online_users" = Some "1")%string.
Proof.
  destruct (ClearRedisUserTokens_clears_the_session_namespace
              (D := decls) (E := calm) stale eq_refl eq_refl) as (_ & Hgone & _ & _ & Hkept).
  split.
  - apply (Hgone _ "old"%string). reflexivity.
  - etrans; [exact Hkept | reflexivity].
Defined.

(** X18 on a run: with Redis unreachable the failure comes back and the
    stale token is still there; with the reply to the DEL lost the failure
    comes back as well, but the stale token is gone and the counter is in
    place. *)
Lemma ClearRedisUserTokens_with_failing_commands :
  sessions_redis.ClearRedisUserTokens (E := unreachable) stale
  = (Some "dial tcp: connection refused"%string,
     {| sessions_redis.entries := sessions_redis.entries stale;
        sessions_redis.issued :=
          [sessions_redis.KEYS "quaver:server:session:*"] |})
  ∧ (let out := sessions_redis.ClearRedisUserTokens (E := reply_lost) stale in
     out.1 = Some "read tcp: i/o timeout"
     ∧ sessions_redis.entries out.2 !! "quaver:server:session:old" = None
     ∧ sessions_redis.entries out.2 !! "quaver:server:online_users"
       = Some "1")%string.
Proof.
  split.
  - apply (proj1 (ClearRedisUserTokens_returns_the_failure (E := unreachable)
                    stale "dial tcp: connection refused"%string)).
    reflexivity.
  - cbv zeta.
    destruct (proj2 (ClearRedisUserTokens_returns_the_failure (E := reply_lost)
                       stale "read tcp: i/o timeout"%string))
      as (Hres & _ & Hkept & _ & Hgone).
    + reflexivity.
    + vm_compute. discriminate.
    + reflexivity.
    + split_and!.
      * exact Hres.
      * apply (Hgone eq_refl _ "old"%string). reflexivity.
      * etrans; [apply Hkept | reflexivity].
        intros t Ht. vm_compute in Ht. discriminate Ht.
Defined.

(** X19 on a run: the token of A is added to a clean cache and removed
    again; and when the reply to the SET is lost, the failure comes back
    although the token is stored. *)
Lemma token_of_A_added_and_removed :
  (let added := sessions_redis.addUserTokenToRedis (E := calm) A clean in
   let removed := sessions_redis.removeUserTokenFromRedis (E := calm) A added.2 in
   sessions_redis.entries added.2 !! "quaver:server:session:abc" = Some "1"
   ∧ sessions_redis.entries removed.2 = sessions_redis.entries clean)%string
  ∧ (let added := sessions_redis.addUserTokenToRedis (E := reply_lost) A clean in
     added.1 = Some "read tcp: i/o timeout"
     ∧ sessions_redis.entries added.2 !! "quaver:server:session:abc" = Some "1"
     ∧ sessions_redis.entries added.2 !! "quaver:server:online_users"
       = Some "1")%string.
Proof.
  split.
  - pose proof (session_token_is_added_and_removed (E := calm) A clean) as H.
    cbv zeta in H. destruct H as [H _].
    destruct (H eq_refl) as (_ & Hadd & _ & Hrem & _).
    destruct (Hrem eq_refl) as (_ & _ & Hback).
    split; [exact Hadd|]. apply Hback. vm_compute. reflexivity.
  - pose proof (session_token_is_added_and_removed (E := reply_lost) A clean)
      as H.
    cbv zeta in H. destruct H as (_ & H & _).
    destruct (H "read tcp: i/o timeout"%string eq_refl)
      as (Hres & Hkept & _ & Hset).
    split_and!; [exact Hres | exact (Hset eq_refl) |].
    etrans; [apply Hkept | reflexivity]. discriminate.
Defined.

(** X20 on a run: the counter is republished as 2 and survives a clearing
    of the tokens; and when the reply to the SET is lost, the failure comes
    back although the counter is at 2 and the stale token in place. *)
Lemma online_user_count_on_a_stale_cache :
  (let out := sessions_redis.UpdateRedisOnlineUserCount (E := calm) stale in
   sessions_redis.entries out.2 !! "quaver:server:online_users" = Some "2"
   ∧ sessions_redis.entries
       (sessions_redis.ClearRedisUserTokens (E := calm) out.2).2
     !! "quaver:server:online_users" = Some "2")%string
  ∧ (let out := sessions_redis.UpdateRedisOnlineUserCount (E := reply_lost)
                  stale in
     out.1 = Some "read tcp: i/o timeout"
     ∧ sessions_redis.entries out.2 !! "quaver:server:online_users" = Some "2"
     ∧ sessions_redis.entries out.2 !! "quaver:server:session:old"
       = Some "9")%string.
Proof.
  split.
  - pose proof (online_user_count_is_published (D := decls) (E := calm) stale)
      as H.
    cbv zeta in H. destruct H as [H _].
    destruct (H eq_refl) as (_ & Hset & _ & _ & Hclear).
    split; [exact Hset | exact Hclear].
  - pose proof (online_user_count_is_published (D := decls) (E := reply_lost)
                  stale) as H.
    cbv zeta in H. destruct H as [_ H].
    destruct (H "read tcp: i/o timeout"%string eq_refl)
      as (Hres & Hkept & _ & Hset).
    split_and!; [exact Hres | exact (Hset eq_refl) |].
    etrans; [apply Hkept | reflexivity]. discriminate.
Defined.
End more_concrete_runs.
